(** * Foculatics site counter: visit store, navigation classifier, period
      aggregation and quota enforcement

    A shallow embedding of the extension's background scripts
    (the aggregate-only [DomainDB] of [src/background/background.js] and of
    the stand-alone module, and the full-schema [DomainDB] with the
    [visits] table) and of the content script's quota checks.

    Conventions of the embedding.
    - A timestamp is the time value of a JavaScript [Date] (milliseconds
      since the epoch) as a [Z].  The code stores [toISOString()] strings and
      compares them as strings and as IndexedDB keys; for the four-digit
      years that format is order-isomorphic to the time value, and
      [new Date(iso)] gives the time value back.
    - An object store with [keyPath: 'domain'] is a finite map from the
      domain to the record.  The [visits] store with an auto-increment key
      is the list of its rows in insertion order, with the key generator.
    - A plain JavaScript object used as a dictionary ([visitCounts],
      [lastVisits]) is the finite map of its own properties, read through
      [get_property], which finds the members inherited from
      [Object.prototype], and written through [set_property].
      [siteQuotasCache] is the finite map of the integers [parseInt] reads
      from its own properties.
    - Every IndexedDB request ends in [onsuccess] or [onerror]; which one is
      an input of the model ([outcome]).  No handler in the source calls
      [preventDefault] on an error event, so by the IndexedDB rules a failed
      request aborts its transaction and the transaction's writes are
      reverted ([run_tx]).
    - The methods of [DomainDB] are modelled with the database open
      ([this.db] set).  Each starts with [if (!this.db) await this.init()]:
      the message listener [Background.onMessage], which answers with the
      error's message, has that step ([Background.init]) in front of each
      store call.  The navigation listener and [updateBadge] catch and log
      the rejection: for them a failed [init] is the case of a failed first
      request (the store is left as it is, no badge call is made).
    - Local time is UTC shifted by a fixed offset [tz] (milliseconds);
      daylight-saving changes are outside the model. *)

From stdpp Require Import gmap strings list.
From Stdlib Require Import ZArith Lia Sorting.Sorted.

Open Scope Z_scope.

(** ** Data model *)

(** A row of the [domains] object store. *)
Record DomainAggregate := mkAggregate {
  domain : string;
  firstVisit : Z;
  lastVisit : Z;
  visitCount : Z
}.

(** A row of the [visits] object store ([id] is the auto-increment key). *)
Record VisitEvent := mkVisit {
  id : Z;
  visit_domain : string;
  timestamp : Z
}.

(** ** IndexedDB requests, promises and transactions *)

Inductive outcome := onsuccess | onerror.

Inductive promise (A : Type) :=
| Resolved (value : A)
| Rejected (message : string).
Arguments Resolved {A} value.
Arguments Rejected {A} message.

(** What the handlers of a transaction's requests leave behind: the settled
    promise, and either the working copy to commit or an abort. *)
Inductive tx (S A : Type) :=
| Commit (settled : promise A) (work : S)
| Abort (settled : promise A).
Arguments Commit {S A} settled work.
Arguments Abort {S A} settled.

Definition run_tx {S A : Type} (db : S) (t : tx S A) : promise A * S :=
  match t with
  | Commit p work => (p, work)
  | Abort p => (p, db)
  end.

(** The record [addOrUpdateDomain] builds from [getRequest.result]. *)
Definition domainData (existingData : option DomainAggregate)
    (d : string) (now : Z) : DomainAggregate :=
  match existingData with
  | Some e =>
      {| domain := d; firstVisit := firstVisit e;
         lastVisit := now; visitCount := visitCount e + 1 |}
  | None =>
      {| domain := d; firstVisit := now; lastVisit := now; visitCount := 1 |}
  end.

(** ** [Array.prototype.sort] and index cursors *)

(** [Array.prototype.sort(cmp)] is stable; with a consistent comparator its
    result is the one of this stable insertion sort. *)
Fixpoint sort_insert {A : Type} (cmp : A → A → Z) (x : A) (l : list A)
    : list A :=
  match l with
  | [] => [x]
  | y :: l' =>
      if decide (cmp x y <= 0) then x :: y :: l'
      else y :: sort_insert cmp x l'
  end.

Definition array_sort {A : Type} (cmp : A → A → Z) (l : list A) : list A :=
  foldr (sort_insert cmp) [] l.

Definition compare_Z (a b : Z) : Z :=
  if decide (a < b) then -1 else if decide (b < a) then 1 else 0.

Definition compare_string (a b : string) : Z :=
  match String.compare a b with Lt => -1 | Eq => 0 | Gt => 1 end.

(** Order of an index cursor opened with direction ['prev'] on an index of
    the [domains] store: index key descending, then primary key
    descending. *)
Definition index_prev (key : DomainAggregate → Z) (a b : DomainAggregate) : Z :=
  if decide (compare_Z (key b) (key a) = 0)
  then compare_string (domain b) (domain a)
  else compare_Z (key b) (key a).

Definition primary_next (a b : DomainAggregate) : Z :=
  compare_string (domain a) (domain b).

(** The cursor loop of [getAllDomains] over a [domains] store. *)
Definition domains_cursor (sortBy : string)
    (store : gmap string DomainAggregate) : list DomainAggregate :=
  let rows := (map_to_list store).*2 in
  if decide (sortBy = "lastVisit") then array_sort (index_prev lastVisit) rows
  else if decide (sortBy = "visitCount")
       then array_sort (index_prev visitCount) rows
       else array_sort primary_next rows.

(** ** Local time and period boundaries *)

Definition msPerDay : Z := 24 * 60 * 60 * 1000.

(** The local calendar day an instant falls on ([toDateString]). *)
Definition localDay (tz t : Z) : Z := (t + tz) `div` msPerDay.

(** [new Date(now.getFullYear(), now.getMonth(), now.getDate())]. *)
Definition localMidnight (tz now : Z) : Z := localDay tz now * msPerDay - tz.

(** [x || dflt] on an optional string: an absent or empty string is falsy. *)
Definition or_default (x : option string) (dflt : string) : string :=
  match x with
  | Some s => if decide (s = "") then dflt else s
  | None => dflt
  end.

(** The [getDomains] message. *)
Record request := mkRequest {
  period : option string;
  sortBy : option string
}.

Inductive response (A : Type) :=
| success (domains : list A)
| failure (error : string).
Arguments success {A} domains.
Arguments failure {A} error.

(** ** Plain objects used as dictionaries *)

(** The own property names of [Object.prototype], which every object
    created by [{}] inherits. *)
Definition Object_prototype_members : list string :=
  ["constructor"; "__defineGetter__"; "__defineSetter__"; "hasOwnProperty";
   "__lookupGetter__"; "__lookupSetter__"; "isPrototypeOf";
   "propertyIsEnumerable"; "toString"; "valueOf"; "__proto__";
   "toLocaleString"].

(** What [o[k]] finds: an own property, a member of [Object.prototype] (a
    function, or for [__proto__] the prototype object), or [undefined]. *)
Inductive property (V : Type) :=
| Own (v : V)
| Inherited
| Undefined.
Arguments Own {V} v.
Arguments Inherited {V}.
Arguments Undefined {V}.

Definition get_property {V : Type} (o : gmap string V) (k : string)
    : property V :=
  match o !! k with
  | Some v => Own v
  | None =>
      if bool_decide (k ∈ Object_prototype_members) then Inherited
      else Undefined
  end.

(** [o[k] = v] for a [v] that is not an object: it creates or overwrites
    the own property, except for [__proto__], whose setter ignores such a
    value. *)
Definition set_property {V : Type} (o : gmap string V) (k : string) (v : V)
    : gmap string V :=
  if decide (k = "__proto__") then o else <[k := v]> o.

(** The values [visitCounts] comes to hold: a number, or, once an inherited
    member was read, the string made of the member's text followed by
    [ones] characters '1'. *)
Inductive count_value :=
| Count (n : Z)
| Text (ones : nat).

(** ** The aggregate-only store ([src/background/background.js]) *)

Module V1.

Record DB := mkDB { domains : gmap string DomainAggregate }.

Definition empty : DB := {| domains := ∅ |}.

Record io := mkIO { get_outcome : outcome; put_outcome : outcome }.

Definition addOrUpdateDomain_tx (d : string) (now : Z) (o : io) (db : DB)
    : tx DB DomainAggregate :=
  match get_outcome o with
  | onerror => Abort (Rejected "Failed to get domain")
  | onsuccess =>
      let existingData := domains db !! d in
      let data := domainData existingData d now in
      match put_outcome o with
      | onerror => Abort (Rejected "Failed to save domain")
      | onsuccess =>
          Commit (Resolved data)
                 {| domains := <[domain data := data]> (domains db) |}
      end
  end.

Definition addOrUpdateDomain (d : string) (now : Z) (o : io) (db : DB)
    : promise DomainAggregate * DB :=
  run_tx db (addOrUpdateDomain_tx d now o db).

Definition getAllDomains (sortBy : string) (o : outcome) (db : DB)
    : promise (list DomainAggregate) :=
  match o with
  | onsuccess => Resolved (domains_cursor sortBy (domains db))
  | onerror => Rejected "Failed to fetch domains"
  end.

Definition filterByDate (tz now : Z) (period : string) (date : Z) : bool :=
  if decide (period = "today")
  then bool_decide (localDay tz date = localDay tz now)
  else if decide (period = "week")
  then bool_decide (now - 7 * 24 * 60 * 60 * 1000 <= date)
  else if decide (period = "month")
  then bool_decide (now - 30 * 24 * 60 * 60 * 1000 <= date)
  else true.

Definition getDomainsForPeriod (tz now : Z) (period : string) (o : outcome)
    (db : DB) : promise (list DomainAggregate) :=
  match getAllDomains "lastVisit" o db with
  | Resolved domains =>
      Resolved (List.filter (λ a, filterByDate tz now period (lastVisit a))
                            domains)
  | Rejected e => Rejected e
  end.

Definition clearAllDomains_tx (o : outcome) (db : DB) : tx DB unit :=
  match o with
  | onsuccess => Commit (Resolved tt) {| domains := ∅ |}
  | onerror => Abort (Rejected "Failed to clear domains")
  end.

Definition clearAllDomains (o : outcome) (db : DB) : promise unit * DB :=
  run_tx db (clearAllDomains_tx o db).

(** The [getDomains] branch of the message listener: "Sort by visit count
    by default"; the request's [sortBy] is not read. *)
Definition getDomains (tz now : Z) (req : request) (o : outcome) (db : DB)
    : response DomainAggregate :=
  match getDomainsForPeriod tz now (or_default (period req) "all") o db with
  | Resolved domains =>
      success (array_sort (λ a b, visitCount b - visitCount a) domains)
  | Rejected e => failure e
  end.

(** One call of [addOrUpdateDomain] with the clock reading and the request
    outcomes it met. *)
Record call := mkCall { call_domain : string; call_now : Z; call_io : io }.

Definition committed (c : call) : bool :=
  match get_outcome (call_io c), put_outcome (call_io c) with
  | onsuccess, onsuccess => true
  | _, _ => false
  end.

Definition step (db : DB) (c : call) : DB :=
  (addOrUpdateDomain (call_domain c) (call_now c) (call_io c) db).2.

Definition run (cs : list call) (db : DB) : DB := foldl step db cs.

(** Clock readings of the accepted (committed) calls for [d], in order. *)
Definition accepted_for (d : string) (cs : list call) : list Z :=
  call_now <$> filter (λ c, call_domain c = d ∧ committed c = true) cs.

Definition io_ok : io := mkIO onsuccess onsuccess.

(** The states the store goes through. *)
Inductive reachable : DB → Prop :=
| reach_empty : reachable empty
| reach_add d now o db :
    reachable db → reachable (addOrUpdateDomain d now o db).2
| reach_clear o db :
    reachable db → reachable (clearAllDomains o db).2.

End V1.

(** ** The stand-alone aggregate-only module ([export default new DomainDB()]) *)

Module Legacy.

(** [daysDiff = (now - visitDate) / (1000 * 60 * 60 * 24)] is compared with
    1, 7 and 30; on integral millisecond values the comparison
    [daysDiff < k] is [now - visitDate < k * msPerDay]. *)
Definition filterByDate (now : Z) (period : string) (date : Z) : bool :=
  if decide (period = "today") then bool_decide (now - date < 1 * msPerDay)
  else if decide (period = "week") then bool_decide (now - date < 7 * msPerDay)
  else if decide (period = "month")
  then bool_decide (now - date < 30 * msPerDay)
  else true.

Definition getDomainsForPeriod (now : Z) (period : string) (o : outcome)
    (db : V1.DB) : promise (list DomainAggregate) :=
  match V1.getAllDomains "lastVisit" o db with
  | Resolved domains =>
      Resolved (List.filter (λ a, filterByDate now period (lastVisit a))
                            domains)
  | Rejected e => Rejected e
  end.

End Legacy.

(** ** The full-schema store ([domains] and [visits]) *)

Module V2.

Record DB := mkDB {
  domains : gmap string DomainAggregate;
  visits : list VisitEvent;
  keygen : Z
}.

(** A freshly created database: both stores empty, key generator at 1. *)
Definition empty : DB := {| domains := ∅; visits := []; keygen := 1 |}.

(** [onupgradeneeded] on a version 1 database: the [domains] store is kept
    and an empty [visits] store is created. *)
Definition upgrade (old : V1.DB) : DB :=
  {| domains := V1.domains old; visits := []; keygen := 1 |}.

Record io := mkIO {
  get_outcome : outcome;
  put_outcome : outcome;
  add_outcome : outcome
}.

Definition put_domain (data : DomainAggregate) (db : DB) : DB :=
  {| domains := <[domain data := data]> (domains db);
     visits := visits db; keygen := keygen db |}.

Definition add_visit (d : string) (now : Z) (db : DB) : DB :=
  {| domains := domains db;
     visits := visits db ++ [ {| id := keygen db; visit_domain := d;
                                 timestamp := now |} ];
     keygen := keygen db + 1 |}.

Definition addOrUpdateDomain_tx (d : string) (now : Z) (o : io) (db : DB)
    : tx DB DomainAggregate :=
  match get_outcome o with
  | onerror => Abort (Rejected "Failed to get domain")
  | onsuccess =>
      let existingData := domains db !! d in
      let data := domainData existingData d now in
      match put_outcome o with
      | onerror => Abort (Rejected "Failed to save domain")
      | onsuccess =>
          let work := put_domain data db in
          match add_outcome o with
          | onsuccess => Commit (Resolved data) (add_visit d now work)
          | onerror =>
              (* "Still resolve even if visit record fails": the promise
                 resolves, the unhandled error aborts the transaction. *)
              Abort (Resolved data)
          end
      end
  end.

Definition addOrUpdateDomain (d : string) (now : Z) (o : io) (db : DB)
    : promise DomainAggregate * DB :=
  run_tx db (addOrUpdateDomain_tx d now o db).

Definition getAllDomains (sortBy : string) (o : outcome) (db : DB)
    : promise (list DomainAggregate) :=
  match o with
  | onsuccess => Resolved (domains_cursor sortBy (domains db))
  | onerror => Rejected "Failed to fetch domains"
  end.

(** The [switch] that computes [startDate]. *)
Definition startDate (tz now : Z) (period : string) : Z :=
  if decide (period = "today") then localMidnight tz now
  else if decide (period = "week") then now - 7 * 24 * 60 * 60 * 1000
  else if decide (period = "month") then now - 30 * 24 * 60 * 60 * 1000
  else 0.

(** The rows a cursor on the [timestamp] index visits for the key range
    [IDBKeyRange.lowerBound(start)]: ascending timestamp, then ascending
    primary key (the insertion order). *)
Definition visits_cursor (start : Z) (rows : list VisitEvent)
    : list VisitEvent :=
  array_sort (λ a b, compare_Z (timestamp a) (timestamp b))
             (List.filter (λ v, bool_decide (start <= timestamp v)) rows).

(** One turn of the cursor loop on [visitCounts] and [lastVisits].
    [(visitCounts[d] || 0) + 1] adds 1 to a number and appends '1' to a
    string or to the text of an inherited member (which is truthy).  A
    timestamp is never greater than an inherited member: the comparison is
    one of strings, and a timestamp begins with a digit or a sign, the text
    of a function with 'f' and that of an object with '['. *)
Definition tally (acc : gmap string count_value * gmap string Z)
    (visit : VisitEvent) : gmap string count_value * gmap string Z :=
  let d := visit_domain visit in
  (set_property (acc.1) d
     match get_property (acc.1) d with
     | Own (Count n) => Count (n + 1)
     | Own (Text ones) => Text (S ones)
     | Inherited => Text 1
     | Undefined => Count 1
     end,
   match get_property (acc.2) d with
   | Undefined => set_property (acc.2) d (timestamp visit)
   | Own l =>
       if decide (l < timestamp visit)
       then set_property (acc.2) d (timestamp visit)
       else acc.2
   | Inherited => acc.2
   end).

(** A record of the period query's result:
    [{...domain, visitCount, lastVisit, periodVisitCount}]. *)
Record PeriodRow := mkRow {
  row_domain : string;
  row_firstVisit : Z;
  row_lastVisit : Z;
  row_visitCount : Z;
  row_periodVisitCount : Z
}.

(** [visitCounts[d] > 0]: a string that is not a numeral, a function and
    an object compare as NaN. *)
Definition positive_count (visitCounts : gmap string count_value) (d : string)
    : bool :=
  match get_property visitCounts d with
  | Own (Count n) => bool_decide (0 < n)
  | _ => false
  end.

(** [visitCounts[d] || 0] where the filter has passed, that is, on a
    positive number. *)
Definition count_or_0 (visitCounts : gmap string count_value) (d : string)
    : Z :=
  match get_property visitCounts d with
  | Own (Count n) => n
  | _ => 0
  end.

(** [lastVisits[d] || domain.lastVisit] where the filter has passed ([d] is
    then not an inherited member). *)
Definition last_or (lastVisits : gmap string Z) (d : string) (dflt : Z) : Z :=
  match get_property lastVisits d with
  | Own t => t
  | _ => dflt
  end.

Definition build_result (visitCounts : gmap string count_value)
    (lastVisits : gmap string Z) (domains : list DomainAggregate)
    : list PeriodRow :=
  List.map
    (λ a, {| row_domain := domain a;
             row_firstVisit := firstVisit a;
             row_lastVisit := last_or lastVisits (domain a) (lastVisit a);
             row_visitCount := count_or_0 visitCounts (domain a);
             row_periodVisitCount := count_or_0 visitCounts (domain a) |})
    (List.filter (λ a, positive_count visitCounts (domain a)) domains).

Record read_io := mkReadIO {
  domains_read : outcome;
  visits_read : outcome
}.

Definition getDomainsForPeriod (tz now : Z) (period : string) (o : read_io)
    (db : DB) : promise (list PeriodRow) :=
  match getAllDomains "lastVisit" (domains_read o) db with
  | Rejected e => Rejected e
  | Resolved domains =>
      match visits_read o with
      | onerror => Rejected "Failed to fetch visits"
      | onsuccess =>
          let acc := foldl tally (∅, ∅)
                       (visits_cursor (startDate tz now period) (visits db)) in
          Resolved (build_result acc.1 acc.2 domains)
      end
  end.

Record clear_io := mkClearIO {
  domains_clear : outcome;
  visits_clear : outcome
}.

Definition clear_domains (db : DB) : DB :=
  {| domains := ∅; visits := visits db; keygen := keygen db |}.

Definition clear_visits (db : DB) : DB :=
  {| domains := domains db; visits := []; keygen := keygen db |}.

(** The two [clear] requests run in the order they were placed; the
    promise resolves in [checkComplete] once both have succeeded. *)
Definition clearAllDomains_tx (o : clear_io) (db : DB) : tx DB unit :=
  match domains_clear o with
  | onerror => Abort (Rejected "Failed to clear domains")
  | onsuccess =>
      let work := clear_domains db in
      match visits_clear o with
      | onerror => Abort (Rejected "Failed to clear visits")
      | onsuccess => Commit (Resolved tt) (clear_visits work)
      end
  end.

Definition clearAllDomains (o : clear_io) (db : DB) : promise unit * DB :=
  run_tx db (clearAllDomains_tx o db).

(** The [getDomains] branch of the message listener. *)
Definition getDomains (tz now : Z) (req : request) (o : read_io) (db : DB)
    : response PeriodRow :=
  match getDomainsForPeriod tz now (or_default (period req) "all") o db with
  | Resolved domains =>
      let sortBy := or_default (sortBy req) "lastVisit" in
      success
        (if decide (sortBy = "visitCount")
         then array_sort (λ a b, row_visitCount b - row_visitCount a) domains
         else if decide (sortBy = "lastVisit")
         then array_sort (λ a b, row_lastVisit b - row_lastVisit a) domains
         else domains)
  | Rejected e => failure e
  end.

Record call := mkCall { call_domain : string; call_now : Z; call_io : io }.

Definition committed (c : call) : bool :=
  match get_outcome (call_io c), put_outcome (call_io c),
        add_outcome (call_io c) with
  | onsuccess, onsuccess, onsuccess => true
  | _, _, _ => false
  end.

Definition step (db : DB) (c : call) : DB :=
  (addOrUpdateDomain (call_domain c) (call_now c) (call_io c) db).2.

Definition run (cs : list call) (db : DB) : DB := foldl step db cs.

Definition accepted_for (d : string) (cs : list call) : list Z :=
  call_now <$> filter (λ c, call_domain c = d ∧ committed c = true) cs.


(** The states the store goes through: created empty or upgraded from a
    version 1 database, then written by the two transactions. *)
Inductive reachable : DB → Prop :=
| reach_empty : reachable empty
| reach_upgrade old : V1.reachable old → reachable (upgrade old)
| reach_add d now o db :
    reachable db → reachable (addOrUpdateDomain d now o db).2
| reach_clear o db :
    reachable db → reachable (clearAllDomains o db).2.

(** The visit rows of [d], and those at or after [start]. *)
Definition visits_of (d : string) (rows : list VisitEvent) : list VisitEvent :=
  List.filter (λ v, bool_decide (visit_domain v = d)) rows.

Definition visits_since (start : Z) (d : string) (rows : list VisitEvent)
    : list VisitEvent :=
  List.filter (λ v, bool_decide (start <= timestamp v)) (visits_of d rows).

(** [m] is the maximum timestamp over [rows]. *)
Definition is_latest (m : Z) (rows : list VisitEvent) : Prop :=
  (∃ v, v ∈ rows ∧ timestamp v = m) ∧ ∀ v, v ∈ rows → timestamp v <= m.


Definition failed (o : io) : Prop :=
  get_outcome o = onerror ∨ put_outcome o = onerror ∨ add_outcome o = onerror.

Definition io_ok : io := mkIO onsuccess onsuccess onsuccess.

Definition read_ok : read_io := mkReadIO onsuccess onsuccess.

(** What the cursor loop has computed for [d] once it has visited [rows]:
    for a [d] that is not a member of [Object.prototype], no entry when [d]
    has no row, else the number of its rows and their maximum timestamp;
    for a member, no number and no timestamp. *)
Definition tallied (rows : list VisitEvent)
    (acc : gmap string count_value * gmap string Z) (d : string) : Prop :=
  if bool_decide (d ∈ Object_prototype_members)
  then (∀ n, acc.1 !! d ≠ Some (Count n)) ∧ acc.2 !! d = None
  else match visits_of d rows with
       | [] => acc.1 !! d = None ∧ acc.2 !! d = None
       | _ :: _ =>
           acc.1 !! d = Some (Count (Z.of_nat (length (visits_of d rows))))
           ∧ ∃ m, acc.2 !! d = Some m ∧ is_latest m (visits_of d rows)
       end.

(** Every aggregate is stored under its domain, and every visit row
    belongs to a domain that has an aggregate. *)
Definition store_inv (db : DB) : Prop :=
  (∀ k a, domains db !! k = Some a → domain a = k)
  ∧ (∀ v, v ∈ visits db → is_Some (domains db !! visit_domain v)).

End V2.

(** The aggregate of [d] after the visits at [ts] were recorded on top of
    [o]: what repeated [domainData] computes. *)
Definition record_all (d : string) (o : option DomainAggregate) (ts : list Z)
    : option DomainAggregate :=
  foldl (λ o t, Some (domainData o d t)) o ts.

(** ** The navigation listener ([chrome.webNavigation.onCommitted]) *)

Module Navigation.

(** What the listener reads of [new URL(details.url)]. *)
Record URL := mkURL { protocol : string; hostname : string }.

Record details := mkDetails {
  url : string;
  frameId : Z;
  transitionType : string;
  transitionQualifiers : option (list string);
  tabId : Z
}.

Definition userInitiatedTransitions : list string :=
  ["typed"; "auto_bookmark"; "auto_toplevel"; "form_submit"; "reload"; "link"].

Definition includes (l : list string) (x : string) : bool := bool_decide (x ∈ l).

Section Classifier.

(** The platform's URL parser; [None] when the constructor throws. *)
Variable URL_parse : string → option URL.

(** The listener up to the store call: the host name it hands to
    [addOrUpdateDomain], if any. *)
Definition onCommitted (trackingEnabled : bool) (e : details) : option string :=
  if negb trackingEnabled then None
  else if decide (frameId e = 0) then
    let qualifiers := default [] (transitionQualifiers e) in
    let isUserInitiated :=
      includes userInitiatedTransitions (transitionType e)
      || includes qualifiers "from_address_bar" in
    if isUserInitiated && negb (bool_decide (url e = "")) then
      match URL_parse (url e) with
      | Some u =>
          if negb (bool_decide (hostname u = ""))
             && String.prefix "http" (protocol u)
          then Some (hostname u)
          else None
      | None => None
      end
    else None
  else None.

(** The listener on the full-schema store. *)
Definition listener (trackingEnabled : bool) (e : details) (now : Z)
    (o : V2.io) (db : V2.DB) : V2.DB :=
  match onCommitted trackingEnabled e with
  | Some h => (V2.addOrUpdateDomain h now o db).2
  | None => db
  end.



End Classifier.

End Navigation.

(** ** The content script: quota checks and their effects on the page *)

Module Content.

(** The text of a notification: the template of [maybeShowQuotaMessage], or
    a message received from the background script. *)
Inductive text :=
| QuotaText (domain : string) (visitCount maxPerDay : Z)
| Literal (s : string).

(** The elements the dispatcher appends to [document.body]. *)
Inductive node :=
| ThreatMessage (t : text)
| HardBlockOverlay (domain : string) (visits max : Z).

Global Instance text_eq_dec : EqDecision text.
Proof. solve_decision. Defined.

Global Instance node_eq_dec : EqDecision node.
Proof. solve_decision. Defined.

Definition is_message (n : node) : bool :=
  match n with ThreatMessage _ => true | _ => false end.

Definition is_overlay (n : node) : bool :=
  match n with HardBlockOverlay _ _ _ => true | _ => false end.

(** The script's settings.  An entry of [siteQuotasCache] is the integer
    [parseInt(value, 10)] reads from the stored value; a domain whose value
    is missing or unreadable has no entry ([NaN || 0] is 0). *)
Record settings := mkSettings {
  quotaEnabled : bool;
  hardBlockEnabled : bool;
  siteQuotasCache : gmap string Z
}.

(** One page instance: the two window flags, the overlay held by the
    observer's closure, the children of [document.body] that the
    dispatcher owns, and the log of the elements it has created. *)
Record page := mkPage {
  quotaShown : bool;
  hardBlocked : bool;
  overlay : option node;
  body : list node;
  created : list node
}.

(** A page instance as it loads. *)
Definition fresh : page :=
  {| quotaShown := false; hardBlocked := false; overlay := None;
     body := []; created := [] |}.

Definition displayThreatMessage (t : text) (p : page) : page :=
  {| quotaShown := quotaShown p; hardBlocked := hardBlocked p;
     overlay := overlay p;
     body := body p ++ [ThreatMessage t];
     created := created p ++ [ThreatMessage t] |}.

Definition showQuotaExceededMessage (t : text) (p : page) : page :=
  if quotaShown p then p
  else displayThreatMessage t
         {| quotaShown := true; hardBlocked := hardBlocked p;
            overlay := overlay p; body := body p; created := created p |}.

Definition showHardBlockOverlay (d : string) (visits max : Z) (p : page)
    : page :=
  if hardBlocked p then p
  else {| quotaShown := quotaShown p; hardBlocked := true;
          overlay := Some (HardBlockOverlay d visits max);
          body := body p ++ [HardBlockOverlay d visits max];
          created := created p ++ [HardBlockOverlay d visits max] |}.

Definition maxPerDay_of (s : settings) (d : string) : Z :=
  default 0 (siteQuotasCache s !! d).

Definition maybeShowQuotaMessage (s : settings) (d : string) (visitCount : Z)
    (p : page) : page :=
  let maxPerDay := maxPerDay_of s d in
  if negb (quotaEnabled s) || bool_decide (maxPerDay = 0)
     || bool_decide (maxPerDay <= 0)
  then p
  else if decide (maxPerDay < visitCount)
       then showQuotaExceededMessage (QuotaText d visitCount maxPerDay) p
       else p.

Definition maybeHardBlock (s : settings) (d : string) (visitCount : Z)
    (p : page) : page :=
  let maxPerDay := maxPerDay_of s d in
  if negb (quotaEnabled s) || negb (hardBlockEnabled s)
     || bool_decide (maxPerDay = 0) || bool_decide (maxPerDay <= 0)
  then p
  else if decide (maxPerDay < visitCount)
       then showHardBlockOverlay d visitCount maxPerDay p
       else p.

(** [response.domains.find(...)] and the count read off it. *)
Definition visitCount_in (currentDomain : string) (rows : list V2.PeriodRow)
    : Z :=
  match List.find (λ r, bool_decide (V2.row_domain r = currentDomain)) rows with
  | Some r => V2.row_visitCount r
  | None => 0
  end.

(** The callback of [checkQuotaForCurrentDomain]. *)
Definition checkQuotaForCurrentDomain (s : settings) (currentDomain : string)
    (r : response V2.PeriodRow) (p : page) : page :=
  if negb (quotaEnabled s) then p
  else match r with
       | success rows =>
           let visitCount := visitCount_in currentDomain rows in
           maybeHardBlock s currentDomain visitCount
             (maybeShowQuotaMessage s currentDomain visitCount p)
       | failure _ => p
       end.

(** What happens to a page instance. *)
Inductive event :=
| SoftWarning (t : text)
| HardBlock (d : string) (visits max : Z)
| QuotaCheck (s : settings) (d : string) (visitCount : Z)
| MessageTimeout
| PageRemoves (keep : node → bool).

(** The callback of the [MutationObserver]. *)
Definition observer (p : page) : page :=
  match overlay p with
  | Some o =>
      if bool_decide (o ∈ body p) then p
      else {| quotaShown := quotaShown p; hardBlocked := hardBlocked p;
              overlay := overlay p; body := body p ++ [o];
              created := created p |}
  | None => p
  end.

Definition with_body (l : list node) (p : page) : page :=
  {| quotaShown := quotaShown p; hardBlocked := hardBlocked p;
     overlay := overlay p; body := l; created := created p |}.

Definition handle (p : page) (e : event) : page :=
  match e with
  | SoftWarning t => showQuotaExceededMessage t p
  | HardBlock d visits max => showHardBlockOverlay d visits max p
  | QuotaCheck s d visitCount =>
      maybeHardBlock s d visitCount (maybeShowQuotaMessage s d visitCount p)
  | MessageTimeout =>
      with_body (List.filter (λ n, negb (is_message n)) (body p)) p
  | PageRemoves keep => observer (with_body (List.filter keep (body p)) p)
  end.

Definition count (f : node → bool) (l : list node) : nat :=
  length (List.filter f l).

(** What holds of a page instance however it was driven: the elements
    created so far are accounted for by the two flags, and the overlays
    under [document.body] are the one the observer holds. *)
Record page_inv (p : page) : Prop := mkPageInv {
  inv_messages : count is_message (created p) = if quotaShown p then 1%nat else 0%nat;
  inv_overlays : count is_overlay (created p) = if hardBlocked p then 1%nat else 0%nat;
  inv_body_messages : (count is_message (body p) <= count is_message (created p))%nat;
  inv_body_overlays : (count is_overlay (body p) <= 1)%nat;
  inv_held : ∀ n, n ∈ body p → is_overlay n = true → overlay p = Some n;
  inv_overlay : ∀ o, overlay p = Some o → is_overlay o = true;
  inv_unblocked : hardBlocked p = false → overlay p = None
}.

End Content.

(** ** The background script: message listener and badge *)

Module Background.

(** The script's state: the [trackingEnabled] flag and the store. *)
Record state := mkState { trackingEnabled : bool; db : V2.DB }.

(** The messages the listener acts on, by [request.action]. *)
Inductive message :=
| Test
| ToggleTracking (enabled : bool)
| TrackDomain (d : string)
| GetDomains (req : request)
| ClearDomains
| Unknown.

(** What [sendResponse] is called with.  The badge calls that follow
    [toggleTracking] are those of [updateBadge] below. *)
Inductive reply :=
| ReplyTest
| ReplySuccess
| ReplyData (data : DomainAggregate)
| ReplyDomains (domains : list V2.PeriodRow)
| ReplyError (error : string)
| NoReply.

(** The outcomes of the requests a message may start. *)
Record msg_io := mkMsgIO {
  track_io : V2.io;
  read_io : V2.read_io;
  clear_io : V2.clear_io
}.

(** [this.db] when a store method is entered: set, or null, in which case
    [init] runs and its [indexedDB.open] request ends as given. *)
Inductive connection :=
| Connected
| Opening (request : outcome).

(** [if (!this.db) await this.init()]. *)
Definition init (c : connection) : promise unit :=
  match c with
  | Connected => Resolved tt
  | Opening onsuccess => Resolved tt
  | Opening onerror => Rejected "Failed to open database"
  end.

(** The message listener.  [db s] is the content of the database as the
    open request finds or makes it. *)
Definition onMessage (tz now : Z) (m : message) (c : connection) (o : msg_io)
    (s : state) : reply * state :=
  match m with
  | Test => (ReplyTest, s)
  | ToggleTracking enabled =>
      (ReplySuccess, {| trackingEnabled := enabled; db := db s |})
  | TrackDomain d =>
      match init c with
      | Rejected e => (ReplyError e, s)
      | Resolved _ =>
          match V2.addOrUpdateDomain d now (track_io o) (db s) with
          | (Resolved result, db') =>
              (ReplyData result,
               {| trackingEnabled := trackingEnabled s; db := db' |})
          | (Rejected e, db') =>
              (ReplyError e,
               {| trackingEnabled := trackingEnabled s; db := db' |})
          end
      end
  | GetDomains req =>
      match init c with
      | Rejected e => (ReplyError e, s)
      | Resolved _ =>
          match V2.getDomains tz now req (read_io o) (db s) with
          | success domains => (ReplyDomains domains, s)
          | failure e => (ReplyError e, s)
          end
      end
  | ClearDomains =>
      match init c with
      | Rejected e => (ReplyError e, s)
      | Resolved _ =>
          match V2.clearAllDomains (clear_io o) (db s) with
          | (Resolved _, db') =>
              (ReplySuccess,
               {| trackingEnabled := trackingEnabled s; db := db' |})
          | (Rejected e, db') =>
              (ReplyError e,
               {| trackingEnabled := trackingEnabled s; db := db' |})
          end
      end
  | Unknown => (NoReply, s)
  end.

(** The text of the badge and of the tooltip. *)
Inductive badge_text := BadgeOff | BadgeEmpty | BadgeNumber (visitCount : Z).

Inductive title_text :=
| TitlePaused
| TitleActive
| TitleVisited (d : string) (visitCount : Z).

(** The calls on [chrome.action]; [tab] is the [tabId] property, absent for
    the calls that set the default of all tabs. *)
Inductive action_call :=
| setBadgeText (text : badge_text) (tab : option Z)
| setBadgeBackgroundColor (color : string) (tab : option Z)
| setTitle (title : title_text) (tab : option Z).

Record tab := mkTab { tab_id : Z; tab_url : option string }.

(** [chrome.tabs]: the answer of [query({active, currentWindow})] and of
    [get(tabId)]; [None] when the call throws. *)
Record tabs := mkTabs {
  query_active : option (list tab);
  get : Z → option tab
}.

(** [!tabId]: no id, or the id 0. *)
Definition no_tab (tabId : option Z) : bool :=
  match tabId with
  | None => true
  | Some i => bool_decide (i = 0)
  end.

(** The tab [updateBadge] works on, when it gets that far. *)
Definition target_tab (tabId : option Z) (env : tabs) : option Z :=
  if no_tab tabId then
    match query_active env with
    | Some (t :: _) => Some (tab_id t)
    | _ => None
    end
  else tabId.

Definition paused_badge : list action_call :=
  [setBadgeText BadgeOff None;
   setBadgeBackgroundColor "#dc3545" None;
   setTitle TitlePaused None].

Definition count_badge (d : string) (visitCount : Z) (i : Z)
    : list action_call :=
  [setBadgeText (if decide (0 < visitCount) then BadgeNumber visitCount
                 else BadgeEmpty) (Some i);
   setBadgeBackgroundColor "#20c997" (Some i);
   setTitle (TitleVisited d visitCount) (Some i)].

Section Badge.

Variable URL_parse : string → option Navigation.URL.

(** The part of [updateBadge] shared by the two versions: from the flag and
    the tab to the domain whose count is shown.  [inl calls] when the
    function ends before it reads the store. *)
Definition badge_domain (trackingEnabled : bool) (tabId : option Z)
    (env : tabs) : list action_call + (Z * string) :=
  if negb trackingEnabled then inl paused_badge
  else match target_tab tabId env with
       | None => inl []
       | Some i =>
           match get env i with
           | None => inl []
           | Some t =>
               match tab_url t with
               | None => inl [setBadgeText BadgeEmpty (Some i);
                              setTitle TitleActive (Some i)]
               | Some u =>
                   if bool_decide (u = "") || negb (String.prefix "http" u)
                   then inl [setBadgeText BadgeEmpty (Some i);
                             setTitle TitleActive (Some i)]
                   else match URL_parse u with
                        | None => inl []
                        | Some parsed => inr (i, Navigation.hostname parsed)
                        end
               end
           end
       end.

(** [updateBadge] of the full-schema script: the badge shows
    [periodVisitCount] of today's record of the tab's domain. *)
Definition updateBadge (tz now : Z) (trackingEnabled : bool)
    (tabId : option Z) (env : tabs) (o : V2.read_io) (db : V2.DB)
    : list action_call :=
  match badge_domain trackingEnabled tabId env with
  | inl calls => calls
  | inr (i, d) =>
      match V2.getDomainsForPeriod tz now "today" o db with
      | Rejected _ => []
      | Resolved todayDomains =>
          let visitCount :=
            match List.find (λ r, bool_decide (V2.row_domain r = d))
                            todayDomains with
            | Some r => V2.row_periodVisitCount r
            | None => 0
            end in
          count_badge d visitCount i
      end
  end.

(** [updateBadge] of the aggregate-only script: the badge shows the
    lifetime [visitCount] when [daysDiff < 1]. *)
Definition updateBadge_V1 (now : Z) (trackingEnabled : bool)
    (tabId : option Z) (env : tabs) (o : outcome) (db : V1.DB)
    : list action_call :=
  match badge_domain trackingEnabled tabId env with
  | inl calls => calls
  | inr (i, d) =>
      match V1.getAllDomains "lastVisit" o db with
      | Rejected _ => []
      | Resolved domains =>
          let visitCount :=
            match List.find (λ a, bool_decide (domain a = d)) domains with
            | Some a =>
                if decide (now - lastVisit a < msPerDay) then visitCount a
                else 0
            | None => 0
            end in
          count_badge d visitCount i
      end
  end.

End Badge.

(** The number shown on a badge, if a call sets one. *)
Definition badge_number (c : action_call) : option Z :=
  match c with
  | setBadgeText (BadgeNumber n) _ => Some n
  | _ => None
  end.

End Background.

(** ** The popup ([App]): the list of domains and the dates *)

Module Popup.

Definition INITIAL_DISPLAY_COUNT : nat := 3.
Definition LOAD_MORE_COUNT : nat := 5.

(** The three pieces of state the list is drawn from. *)
Record view (A : Type) := mkView {
  domains : list A;
  displayedDomains : list A;
  showMore : bool
}.
Arguments mkView {A} domains displayedDomains showMore.
Arguments domains {A} v.
Arguments displayedDomains {A} v.
Arguments showMore {A} v.

(** The state [fetchDomains] sets from the answer to [getDomains]; [None]
    stands for a missing answer or a thrown error. *)
Definition fetchDomains {A : Type} (r : option (response A)) : view A :=
  match r with
  | Some (success domainsData) =>
      {| domains := domainsData;
         displayedDomains := take INITIAL_DISPLAY_COUNT domainsData;
         showMore := bool_decide (INITIAL_DISPLAY_COUNT < length domainsData)%nat |}
  | _ => {| domains := []; displayedDomains := []; showMore := false |}
  end.

Definition handleLoadMore {A : Type} (v : view A) : view A :=
  let currentCount := length (displayedDomains v) in
  let newCount :=
    Nat.min (currentCount + LOAD_MORE_COUNT) (length (domains v)) in
  {| domains := domains v;
     displayedDomains := take newCount (domains v);
     showMore := if bool_decide (length (domains v) <= newCount)%nat
                 then false else showMore v |}.

(** The number in the label of the "Load More" button. *)
Definition more_label {A : Type} (v : view A) : nat :=
  Nat.min LOAD_MORE_COUNT (length (domains v) - length (displayedDomains v)).

(** What [formatDate] prints. *)
Inductive date_label :=
| JustNow
| MinAgo (n : Z)
| HoursAgo (n : Z)
| LocaleDate (date : Z).

Definition formatDate (now date : Z) : date_label :=
  let diffMs := now - date in
  let diffMins := diffMs `div` 60000 in
  if decide (diffMins < 1) then JustNow
  else if decide (diffMins < 60) then MinAgo diffMins
  else if decide (diffMins < 1440) then HoursAgo (diffMins `div` 60)
  else LocaleDate date.

End Popup.

(** ** The content script: the visit-count popup *)

Module VisitPopup.

(** The popup elements are told apart by the order of their creation.  The
    state is the [dailyVisitPopup] variable, the popup elements under
    [document.body] with the count they print, and the number of elements
    created so far. *)
Record page := mkPage {
  dailyVisitPopup : option nat;
  body : list (nat * Z);
  made : nat
}.

Definition fresh : page :=
  {| dailyVisitPopup := None; body := []; made := 0 |}.

Definition remove (e : nat) (l : list (nat * Z)) : list (nat * Z) :=
  List.filter (λ x, negb (bool_decide (x.1 = e))) l.

Definition displayVisitPopup (visitCount : Z) (p : page) : page :=
  let body1 := match dailyVisitPopup p with
               | Some e => remove e (body p)
               | None => body p
               end in
  {| dailyVisitPopup := Some (made p);
     body := body1 ++ [(made p, visitCount)];
     made := S (made p) |}.

(** The callback [hideDailyVisitPopup] schedules, 400 ms later. *)
Definition removal_timer (p : page) : page :=
  match dailyVisitPopup p with
  | Some e =>
      if bool_decide (e ∈ (body p).*1)
      then {| dailyVisitPopup := None; body := remove e (body p);
              made := made p |}
      else p
  | None => p
  end.

(** What happens to the popup: the callback of [showDailyVisitCount] gets
    its answer, a removal timer fires, the page detaches elements. *)
Inductive event :=
| Display (visitCount : Z)
| RemovalTimer
| PageRemoves (keep : nat → bool).

Definition handle (p : page) (e : event) : page :=
  match e with
  | Display visitCount => displayVisitPopup visitCount p
  | RemovalTimer => removal_timer p
  | PageRemoves keep =>
      {| dailyVisitPopup := dailyVisitPopup p;
         body := List.filter (λ x, keep x.1) (body p); made := made p |}
  end.

End VisitPopup.

(** The page is hard-blocked with the overlay [o]: the observer holds [o],
    [o] is under [document.body], and it is the only overlay created. *)
Definition blocked_with (o : Content.node) (p : Content.page) : Prop :=
  Content.hardBlocked p = true ∧ Content.overlay p = Some o
  ∧ Content.is_overlay o = true ∧ o ∈ Content.body p
  ∧ List.filter Content.is_overlay (Content.created p) = [o].

(** * Properties *)

(** ** Counting visits *)

Lemma last_cons_default {A} (x : A) (l : list A) (d d' : A) :
  List.last (x :: l) d = List.last (x :: l) d'.
Proof.
  revert x. induction l as [|y l IH]; intros x; [done|].
  change (List.last (y :: l) d = List.last (y :: l) d'). apply IH.
Qed.

Lemma record_all_Some d a ts :
  record_all d (Some a) ts =
    Some (match ts with
          | [] => a
          | _ => {| domain := d; firstVisit := firstVisit a;
                    lastVisit := List.last ts (lastVisit a);
                    visitCount := visitCount a + Z.of_nat (length ts) |}
          end).
Proof.
  revert a. induction ts as [|t ts IH]; intros a; [done|].
  cbn [record_all foldl]. fold (record_all d (Some (domainData (Some a) d t)) ts).
  rewrite IH. f_equal. destruct ts as [|t' ts]; cbn [domainData].
  - simpl. f_equal.
  - cbn [firstVisit lastVisit visitCount length].
    f_equal; [|lia].
    change (List.last (t' :: ts) t = List.last (t' :: ts) (lastVisit a)).
    apply last_cons_default.
Qed.

Lemma record_all_None d t ts :
  record_all d None (t :: ts) =
    Some {| domain := d; firstVisit := t; lastVisit := List.last ts t;
            visitCount := Z.of_nat (length (t :: ts)) |}.
Proof.
  cbn [record_all foldl]. fold (record_all d (Some (domainData None d t)) ts).
  rewrite record_all_Some. f_equal.
  destruct ts as [|t' ts]; cbn [domainData]; [done|].
  cbn [firstVisit lastVisit visitCount length]. f_equal. lia.
Qed.

Lemma domainData_domain o d now : domain (domainData o d now) = d.
Proof. by destruct o. Qed.

Lemma V1_step_lookup d db c :
  V1.domains (V1.step db c) !! d =
    if decide (V1.call_domain c = d ∧ V1.committed c = true)
    then Some (domainData (V1.domains db !! d) d (V1.call_now c))
    else V1.domains db !! d.
Proof.
  destruct c as [cd now [og op]].
  unfold V1.step, V1.addOrUpdateDomain, V1.addOrUpdateDomain_tx, V1.committed.
  cbn [V1.call_domain V1.call_now V1.call_io V1.get_outcome V1.put_outcome].
  destruct og, op; cbn [run_tx snd V1.domains];
    try (case_decide as H; [destruct H; discriminate | done]).
  rewrite domainData_domain.
  case_decide as H.
  - destruct H as [-> _]. by rewrite lookup_insert_eq.
  - rewrite lookup_insert_ne; [done|]. intros ->. by apply H.
Qed.

Lemma V1_run_lookup d cs db :
  V1.domains (V1.run cs db) !! d =
    record_all d (V1.domains db !! d) (V1.accepted_for d cs).
Proof.
  revert db. induction cs as [|c cs IH]; intros db; [done|].
  change (V1.run (c :: cs) db) with (V1.run cs (V1.step db c)).
  rewrite IH, V1_step_lookup. unfold V1.accepted_for.
  rewrite filter_cons. case_decide; [|done].
  by rewrite fmap_cons.
Qed.

Lemma V2_step_lookup d db c :
  V2.domains (V2.step db c) !! d =
    if decide (V2.call_domain c = d ∧ V2.committed c = true)
    then Some (domainData (V2.domains db !! d) d (V2.call_now c))
    else V2.domains db !! d.
Proof.
  destruct c as [cd now [og op oa]].
  unfold V2.step, V2.addOrUpdateDomain, V2.addOrUpdateDomain_tx, V2.committed.
  cbn [V2.call_domain V2.call_now V2.call_io V2.get_outcome V2.put_outcome
       V2.add_outcome].
  destruct og, op, oa; cbn [run_tx snd V2.domains V2.add_visit V2.put_domain];
    try (case_decide as H; [destruct H; discriminate | done]).
  rewrite domainData_domain.
  case_decide as H.
  - destruct H as [-> _]. by rewrite lookup_insert_eq.
  - rewrite lookup_insert_ne; [done|]. intros ->. by apply H.
Qed.

Lemma V2_run_lookup d cs db :
  V2.domains (V2.run cs db) !! d =
    record_all d (V2.domains db !! d) (V2.accepted_for d cs).
Proof.
  revert db. induction cs as [|c cs IH]; intros db; [done|].
  change (V2.run (c :: cs) db) with (V2.run cs (V2.step db c)).
  rewrite IH, V2_step_lookup. unfold V2.accepted_for.
  rewrite filter_cons. case_decide; [|done].
  by rewrite fmap_cons.
Qed.

(** C1. After the accepted calls of [addOrUpdateDomain] for a domain [d]
    that had no aggregate, made at the clock readings [t :: ts] (so [N] is
    the length of [t :: ts], at least 1), among any other calls, the stored
    aggregate of [d] has [visitCount = N], [firstVisit = t], the reading of
    the first accepted call, and [lastVisit] the reading of the last one.
    This holds on the aggregate-only store and on the full-schema store. *)
Theorem visit_count_after_accepted_calls (d : string) (t : Z) (ts : list Z) :
  (∀ cs db,
     V1.domains db !! d = None →
     V1.accepted_for d cs = t :: ts →
     V1.domains (V1.run cs db) !! d =
       Some {| domain := d; firstVisit := t; lastVisit := List.last ts t;
               visitCount := Z.of_nat (length (t :: ts)) |})
  ∧ (∀ cs db,
     V2.domains db !! d = None →
     V2.accepted_for d cs = t :: ts →
     V2.domains (V2.run cs db) !! d =
       Some {| domain := d; firstVisit := t; lastVisit := List.last ts t;
               visitCount := Z.of_nat (length (t :: ts)) |}).
Proof.
  split; intros cs db Hnone Hacc.
  - rewrite V1_run_lookup, Hnone, Hacc. apply record_all_None.
  - rewrite V2_run_lookup, Hnone, Hacc. apply record_all_None.
Qed.

Lemma visit_count_after_accepted_calls_witness :
  V1.domains
    (V1.run [V1.mkCall "a.com" 10 V1.io_ok;
             V1.mkCall "b.org" 20 V1.io_ok;
             V1.mkCall "a.com" 30 (V1.mkIO onsuccess onerror);
             V1.mkCall "a.com" 40 V1.io_ok] V1.empty) !! "a.com" =
    Some {| domain := "a.com"; firstVisit := 10; lastVisit := 40;
            visitCount := 2 |}
  ∧ V2.domains
      (V2.run [V2.mkCall "a.com" 10 V2.io_ok;
               V2.mkCall "b.org" 20 V2.io_ok;
               V2.mkCall "a.com" 30 (V2.mkIO onsuccess onsuccess onerror);
               V2.mkCall "a.com" 40 V2.io_ok] V2.empty) !! "a.com" =
      Some {| domain := "a.com"; firstVisit := 10; lastVisit := 40;
              visitCount := 2 |}.
Proof.
  split.
  - apply (proj1 (visit_count_after_accepted_calls "a.com" 10 [40]));
      reflexivity.
  - apply (proj2 (visit_count_after_accepted_calls "a.com" 10 [40]));
      reflexivity.
Defined.

(** ** The aggregate and the visit log *)

Lemma visits_of_app d l1 l2 :
  V2.visits_of d (l1 ++ l2) = V2.visits_of d l1 ++ V2.visits_of d l2.
Proof. apply List.filter_app. Qed.

Lemma visits_of_elem d v rows :
  v ∈ V2.visits_of d rows ↔ v ∈ rows ∧ visit_domain v = d.
Proof.
  unfold V2.visits_of. rewrite !list_elem_of_In, List.filter_In.
  by rewrite bool_decide_eq_true.
Qed.

Lemma addOrUpdateDomain_failed d now o db :
  V2.failed o → (V2.addOrUpdateDomain d now o db).2 = db.
Proof.
  unfold V2.addOrUpdateDomain, V2.addOrUpdateDomain_tx, V2.failed.
  destruct o as [[] [] []]; cbn; try done.
  intros [H | [H | H]]; discriminate.
Qed.

Lemma addOrUpdateDomain_ok d now db :
  (V2.addOrUpdateDomain d now V2.io_ok db).2 =
    V2.add_visit d now
      (V2.put_domain (domainData (V2.domains db !! d) d now) db).
Proof. reflexivity. Qed.

Lemma io_ok_or_failed o : o = V2.io_ok ∨ V2.failed o.
Proof. destruct o as [[] [] []]; unfold V2.failed; cbn; auto. Qed.








(** When the [add] of the visit row fails, the promise still resolves with
    the incremented aggregate, which the aborted transaction did not keep. *)
Lemma resolved_without_commit d now db :
  V2.addOrUpdateDomain d now (V2.mkIO onsuccess onsuccess onerror) db =
    (Resolved (domainData (V2.domains db !! d) d now), db).
Proof. reflexivity. Qed.


(** [lastVisit] is the clock reading of the last committed call: when the
    clock goes back it is not the maximum over the rows. *)
Lemma lastVisit_follows_clock :
  let db := V2.run [V2.mkCall "a.com" 10 V2.io_ok;
                    V2.mkCall "a.com" 5 V2.io_ok] V2.empty in
  lastVisit <$> V2.domains db !! "a.com" = Some 5
  ∧ timestamp <$> V2.visits_of "a.com" (V2.visits db) = [10; 5].
Proof. split; reflexivity. Qed.

(** A store upgraded from version 1 keeps the aggregates and starts with no
    visit row: its counts include the visits recorded before the upgrade. *)
Lemma upgraded_store_counts_earlier_visits :
  let old := V1.run [V1.mkCall "a.com" 10 V1.io_ok;
                     V1.mkCall "a.com" 20 V1.io_ok] V1.empty in
  let db := V2.run [V2.mkCall "a.com" 30 V2.io_ok] (V2.upgrade old) in
  visitCount <$> V2.domains db !! "a.com" = Some 3
  ∧ timestamp <$> V2.visits_of "a.com" (V2.visits db) = [30].
Proof. split; reflexivity. Qed.

(** ** The boundary of 'today' *)

Lemma msPerDay_pos : 0 < msPerDay.
Proof. reflexivity. Qed.

Lemma localMidnight_bounds tz now :
  localMidnight tz now <= now < localMidnight tz now + msPerDay.
Proof.
  unfold localMidnight, localDay.
  pose proof (Z.div_mod (now + tz) msPerDay) as Hdm.
  pose proof (Z.mod_pos_bound (now + tz) msPerDay msPerDay_pos) as Hb.
  specialize (Hdm ltac:(pose proof msPerDay_pos; lia)). lia.
Qed.

Lemma localMidnight_le_iff tz now t :
  localMidnight tz now <= t ↔ localDay tz now <= localDay tz t.
Proof.
  unfold localMidnight, localDay. pose proof msPerDay_pos as Hpos. split.
  - intros H. apply Z.div_le_lower_bound; lia.
  - intros H.
    pose proof (Z.mul_div_le (t + tz) msPerDay Hpos). nia.
Qed.

Lemma localDay_mono tz t q : t <= q → localDay tz t <= localDay tz q.
Proof.
  intros H. unfold localDay. apply Z.div_le_mono; [apply msPerDay_pos|lia].
Qed.

Lemma array_sort_insert_perm {A} (cmp : A → A → Z) x l :
  sort_insert cmp x l ≡ₚ x :: l.
Proof.
  induction l as [|y l IH]; [done|].
  cbn. case_decide; [done|]. rewrite IH. apply Permutation_swap.
Qed.

Lemma array_sort_perm {A} (cmp : A → A → Z) l : array_sort cmp l ≡ₚ l.
Proof.
  induction l as [|x l IH]; [done|].
  cbn. rewrite array_sort_insert_perm. by rewrite IH.
Qed.

Lemma visits_cursor_elem start rows v :
  v ∈ V2.visits_cursor start rows ↔ v ∈ rows ∧ start <= timestamp v.
Proof.
  unfold V2.visits_cursor. rewrite array_sort_perm.
  rewrite !list_elem_of_In, List.filter_In.
  by rewrite bool_decide_eq_true.
Qed.

(** On the full-schema store the cursor of a 'today' query visits exactly
    the rows at or after the local midnight of the query's day; for a visit
    not later than the query, these are the rows of the query's local
    calendar day. *)
Lemma V2_today_calendar_day tz q rows v :
  timestamp v <= q →
  (v ∈ V2.visits_cursor (V2.startDate tz q "today") rows
   ↔ v ∈ rows ∧ localDay tz (timestamp v) = localDay tz q).
Proof.
  intros Hle. rewrite visits_cursor_elem.
  change (V2.startDate tz q "today") with (localMidnight tz q).
  rewrite localMidnight_le_iff.
  pose proof (localDay_mono tz _ _ Hle). intuition lia.
Qed.

Lemma V1_today_calendar_day tz q t :
  V1.filterByDate tz q "today" t = true ↔ localDay tz t = localDay tz q.
Proof.
  change (V1.filterByDate tz q "today" t)
    with (bool_decide (localDay tz t = localDay tz q)).
  apply bool_decide_eq_true.
Qed.

(** The stand-alone module's 'today' is a rolling 24-hour window. *)
Lemma Legacy_today_rolling q t :
  Legacy.filterByDate q "today" t = true ↔ q - t < msPerDay.
Proof.
  change (Legacy.filterByDate q "today" t)
    with (bool_decide (q - t < 1 * msPerDay)).
  rewrite bool_decide_eq_true. lia.
Qed.

(** C3. A visit at 23:59:59 (local time, here UTC) queried with 'today' at
    00:00:01 of the next day: the two instants are on different local
    calendar days; the full-schema query does not count the visit and the
    aggregate-only query of [background.js] leaves the domain out, but the
    stand-alone module's [getDomainsForPeriod] returns it, because its
    'today' is [daysDiff < 1].  Queried at 23:59:59 of its own day all three
    include it. *)
Theorem legacy_today_includes_yesterday :
  let t := 86399000 in
  let q := 86401000 in
  let a := {| domain := "a.com"; firstVisit := t; lastVisit := t;
              visitCount := 1 |} in
  let db1 := {| V1.domains := {["a.com" := a]} |} in
  let db2 := {| V2.domains := {["a.com" := a]};
                V2.visits := [mkVisit 1 "a.com" t]; V2.keygen := 2 |} in
  localDay 0 t ≠ localDay 0 q
  ∧ Legacy.getDomainsForPeriod q "today" onsuccess db1 = Resolved [a]
  ∧ V1.getDomainsForPeriod 0 q "today" onsuccess db1 = Resolved []
  ∧ V2.getDomainsForPeriod 0 q "today" (V2.mkReadIO onsuccess onsuccess) db2
    = Resolved []
  ∧ Legacy.getDomainsForPeriod t "today" onsuccess db1 = Resolved [a]
  ∧ V1.getDomainsForPeriod 0 t "today" onsuccess db1 = Resolved [a]
  ∧ V2.getDomainsForPeriod 0 t "today" (V2.mkReadIO onsuccess onsuccess) db2
    = Resolved [V2.mkRow "a.com" t t 1 1].
Proof. vm_compute. repeat split; discriminate. Qed.

(** ** Quota checks *)

Lemma maybeShowQuotaMessage_spec s d visitCount p :
  Content.maybeShowQuotaMessage s d visitCount p =
    if Content.quotaEnabled s
    then if decide (0 < Content.maxPerDay_of s d ∧
                    Content.maxPerDay_of s d < visitCount)
         then Content.showQuotaExceededMessage
                (Content.QuotaText d visitCount (Content.maxPerDay_of s d)) p
         else p
    else p.
Proof.
  unfold Content.maybeShowQuotaMessage.
  destruct (Content.quotaEnabled s); cbn [negb orb]; [|done].
  repeat case_bool_decide; repeat case_decide; cbn [orb]; try done; lia.
Qed.

Lemma maybeHardBlock_spec s d visitCount p :
  Content.maybeHardBlock s d visitCount p =
    if Content.quotaEnabled s && Content.hardBlockEnabled s
    then if decide (0 < Content.maxPerDay_of s d ∧
                    Content.maxPerDay_of s d < visitCount)
         then Content.showHardBlockOverlay d visitCount
                (Content.maxPerDay_of s d) p
         else p
    else p.
Proof.
  unfold Content.maybeHardBlock.
  destruct (Content.quotaEnabled s), (Content.hardBlockEnabled s);
    cbn [negb orb andb]; try done.
  repeat case_bool_decide; repeat case_decide; cbn [orb]; try done; lia.
Qed.

(** C4. For a domain [d] with a positive configured [maxPerDay] and quota
    checking enabled, on a page instance that has shown nothing yet: a
    today-count up to and including [maxPerDay] changes nothing, through
    either check; a today-count strictly greater than [maxPerDay] makes
    [maybeShowQuotaMessage] show the quota notification, and makes
    [maybeHardBlock] create the overlay exactly when [hardBlockEnabled] is
    set.  So with hard blocking off the page gets the notification and no
    overlay, and with hard blocking on it gets the overlay (after the
    notification). *)
Theorem quota_strictly_greater (s : Content.settings) (d : string)
    (maxPerDay visitCount : Z) :
  Content.quotaEnabled s = true →
  Content.siteQuotasCache s !! d = Some maxPerDay →
  0 < maxPerDay →
  (visitCount <= maxPerDay →
     Content.maybeShowQuotaMessage s d visitCount Content.fresh = Content.fresh
     ∧ Content.maybeHardBlock s d visitCount Content.fresh = Content.fresh
     ∧ Content.handle Content.fresh (Content.QuotaCheck s d visitCount)
       = Content.fresh)
  ∧ (maxPerDay < visitCount →
     Content.body (Content.maybeShowQuotaMessage s d visitCount Content.fresh)
       = [Content.ThreatMessage (Content.QuotaText d visitCount maxPerDay)]
     ∧ Content.body (Content.maybeHardBlock s d visitCount Content.fresh)
       = (if Content.hardBlockEnabled s
          then [Content.HardBlockOverlay d visitCount maxPerDay] else [])
     ∧ Content.body
         (Content.handle Content.fresh (Content.QuotaCheck s d visitCount))
       = Content.ThreatMessage (Content.QuotaText d visitCount maxPerDay)
         :: (if Content.hardBlockEnabled s
             then [Content.HardBlockOverlay d visitCount maxPerDay] else [])).
Proof.
  intros Hq Hcache Hpos.
  assert (Content.maxPerDay_of s d = maxPerDay) as Hmax
    by (unfold Content.maxPerDay_of; by rewrite Hcache).
  cbn [Content.handle].
  rewrite !maybeShowQuotaMessage_spec, !maybeHardBlock_spec, Hq, Hmax.
  cbn [andb]. split; intros Hcmp.
  - rewrite !decide_False by lia. by destruct (Content.hardBlockEnabled s).
  - rewrite !decide_True by lia. by destruct (Content.hardBlockEnabled s).
Qed.

Lemma quota_strictly_greater_witness :
  let s := Content.mkSettings true false {["a.com" := 5]} in
  Content.handle Content.fresh (Content.QuotaCheck s "a.com" 5) = Content.fresh
  ∧ Content.body (Content.handle Content.fresh (Content.QuotaCheck s "a.com" 6))
    = [Content.ThreatMessage (Content.QuotaText "a.com" 6 5)].
Proof.
  intros s.
  pose proof (quota_strictly_greater s "a.com" 5 5 eq_refl eq_refl eq_refl)
    as [H5 _].
  pose proof (quota_strictly_greater s "a.com" 5 6 eq_refl eq_refl eq_refl)
    as [_ H6].
  split.
  - apply H5. lia.
  - apply H6. lia.
Defined.

(** ** The navigation classifier *)

Section ClassifierFacts.

Variable URL_parse : string → option Navigation.URL.







End ClassifierFacts.


(** ** Clearing the store *)

Lemma domains_cursor_empty sortBy : domains_cursor sortBy ∅ = [].
Proof.
  unfold domains_cursor. rewrite map_to_list_empty.
  by repeat case_decide.
Qed.

(** C6. [clearAllDomains] is all or nothing over both tables.  Whatever the
    outcomes of its two [clear] requests, the store afterwards is either the
    store before the call or the store with both tables empty, never one
    table cleared and the other not.  When the promise resolves, both
    tables are empty, listing the aggregates gives the empty sequence and
    every period query gives the empty sequence; when it rejects, the store
    is the one before the call.  On the aggregate-only store, whose only
    table is [domains], the same holds of that table. *)
Theorem clearAllDomains_all_or_nothing (o : V2.clear_io) (db : V2.DB)
    (o1 : outcome) (db1 : V1.DB) :
  ((V2.clearAllDomains o db).2 = db
   ∨ (V2.clearAllDomains o db).2 =
       {| V2.domains := ∅; V2.visits := []; V2.keygen := V2.keygen db |})
  ∧ match (V2.clearAllDomains o db).1 with
    | Resolved _ =>
        V2.domains (V2.clearAllDomains o db).2 = ∅
        ∧ V2.visits (V2.clearAllDomains o db).2 = []
        ∧ (∀ sortBy,
             V2.getAllDomains sortBy onsuccess (V2.clearAllDomains o db).2
             = Resolved [])
        ∧ (∀ tz now period,
             V2.getDomainsForPeriod tz now period
               (V2.mkReadIO onsuccess onsuccess) (V2.clearAllDomains o db).2
             = Resolved [])
    | Rejected _ => (V2.clearAllDomains o db).2 = db
    end
  ∧ match (V1.clearAllDomains o1 db1).1 with
    | Resolved _ =>
        V1.domains (V1.clearAllDomains o1 db1).2 = ∅
        ∧ (∀ sortBy,
             V1.getAllDomains sortBy onsuccess (V1.clearAllDomains o1 db1).2
             = Resolved [])
    | Rejected _ => (V1.clearAllDomains o1 db1).2 = db1
    end.
Proof.
  split; [|split].
  - destruct o as [[] []]; cbn; auto.
  - destruct o as [[] []]; cbn; try done.
    split; [done|]. split; [done|]. split.
    + intros sortBy. by rewrite domains_cursor_empty.
    + intros tz now period.
      unfold V2.getDomainsForPeriod, V2.getAllDomains.
      cbn [V2.domains_read V2.visits_read V2.domains V2.visits].
      by rewrite domains_cursor_empty.
  - destruct o1; cbn; [|done]. split; [done|].
    intros sortBy. by rewrite domains_cursor_empty.
Qed.

(** ** Sorting the response *)

(** Descending by [key]: no element has a smaller key than a later one. *)
Lemma sort_insert_desc {A} (key : A → Z) x l :
  StronglySorted (λ a b, key b <= key a) l →
  StronglySorted (λ a b, key b <= key a)
    (sort_insert (λ a b, key b - key a) x l).
Proof.
  induction l as [|y l IH]; intros Hs.
  - repeat constructor.
  - apply StronglySorted_inv in Hs as [Hl Hy]. cbn [sort_insert].
    case_decide as Hc.
    + constructor; [by constructor|]. constructor; [lia|].
      eapply Forall_impl; [exact Hy|]. cbn. intros; lia.
    + constructor; [by apply IH|].
      rewrite array_sort_insert_perm. constructor; [lia|done].
Qed.

Lemma array_sort_desc {A} (key : A → Z) l :
  StronglySorted (λ a b, key b <= key a)
    (array_sort (λ a b, key b - key a) l).
Proof.
  induction l as [|x l IH]; [constructor|].
  cbn. by apply sort_insert_desc.
Qed.

(** C8 (as the code has it).  The full-schema [getDomains] handler answers
    with the period query's rows sorted descending by [visitCount] when
    [sortBy] is 'visitCount', and descending by [lastVisit] when [sortBy] is
    'lastVisit' or absent; it fails only when one of the two reads fails.
    The aggregate-only handler of [background.js] does not read [sortBy]:
    its answer is always sorted descending by [visitCount]. *)
Theorem getDomains_sorted (tz now : Z) (req : request)
    (o : V2.read_io) (db : V2.DB) (o1 : outcome) (db1 : V1.DB) :
  match V2.getDomains tz now req o db with
  | success rows =>
      (∃ l, V2.getDomainsForPeriod tz now (or_default (period req) "all") o db
              = Resolved l ∧ rows ≡ₚ l)
      ∧ (sortBy req = Some "visitCount" →
         StronglySorted
           (λ a b, V2.row_visitCount b <= V2.row_visitCount a) rows)
      ∧ (sortBy req = Some "lastVisit" ∨ sortBy req = None →
         StronglySorted
           (λ a b, V2.row_lastVisit b <= V2.row_lastVisit a) rows)
  | failure _ => V2.domains_read o = onerror ∨ V2.visits_read o = onerror
  end
  ∧ match V1.getDomains tz now req o1 db1 with
    | success rows =>
        (∃ l, V1.getDomainsForPeriod tz now (or_default (period req) "all")
                o1 db1 = Resolved l ∧ rows ≡ₚ l)
        ∧ StronglySorted (λ a b, visitCount b <= visitCount a) rows
    | failure _ => o1 = onerror
    end.
Proof.
  split.
  - unfold V2.getDomains.
    destruct (V2.getDomainsForPeriod _ _ _ _ _) as [l|msg] eqn:Hq.
    + split; [|split].
      * exists l. split; [done|]. repeat case_decide; by rewrite ?array_sort_perm.
      * intros ->. cbn. apply (array_sort_desc V2.row_visitCount).
      * intros [-> | ->]; cbn; apply (array_sort_desc V2.row_lastVisit).
    + unfold V2.getDomainsForPeriod, V2.getAllDomains in Hq.
      destruct (V2.domains_read o); [|by left].
      destruct (V2.visits_read o); [discriminate|by right].
  - unfold V1.getDomains, V1.getDomainsForPeriod, V1.getAllDomains.
    destruct o1; [|done]. split.
    + eexists. split; [done|]. by rewrite array_sort_perm.
    + apply (array_sort_desc visitCount).
Qed.

Lemma getDomains_sorted_witness :
  let a := mkAggregate "a.com" 1 50 1 in
  let b := mkAggregate "b.org" 2 20 2 in
  let db := {| V2.domains := {["a.com" := a; "b.org" := b]};
               V2.visits := [mkVisit 1 "a.com" 50; mkVisit 2 "b.org" 10;
                             mkVisit 3 "b.org" 20];
               V2.keygen := 4 |} in
  StronglySorted (λ a b, V2.row_lastVisit b <= V2.row_lastVisit a)
    [V2.mkRow "a.com" 1 50 1 1; V2.mkRow "b.org" 2 20 2 2]
  ∧ StronglySorted (λ a b, V2.row_visitCount b <= V2.row_visitCount a)
      [V2.mkRow "b.org" 2 20 2 2; V2.mkRow "a.com" 1 50 1 1].
Proof.
  intros a b db.
  pose proof (proj1 (getDomains_sorted 0 100 (mkRequest (Some "all") None)
                       (V2.mkReadIO onsuccess onsuccess) db
                       onsuccess V1.empty)) as H1.
  pose proof (proj1 (getDomains_sorted 0 100
                       (mkRequest (Some "all") (Some "visitCount"))
                       (V2.mkReadIO onsuccess onsuccess) db
                       onsuccess V1.empty)) as H2.
  vm_compute in H1, H2.
  destruct H1 as (_ & _ & H1), H2 as (_ & H2 & _).
  split; [apply H1; by right | by apply H2].
Defined.

(** The aggregate-only handler asked for 'lastVisit' order, or with no
    [sortBy]: the answer is ordered by [visitCount], and is not descending
    by [lastVisit]. *)
Lemma V1_getDomains_ignores_sortBy :
  V1.getDomains 0 100 (mkRequest (Some "all") (Some "lastVisit")) onsuccess
    {| V1.domains := {["a.com" := mkAggregate "a.com" 1 50 1;
                       "b.org" := mkAggregate "b.org" 2 20 3]} |}
  = success [mkAggregate "b.org" 2 20 3; mkAggregate "a.com" 1 50 1]
  ∧ V1.getDomains 0 100 (mkRequest (Some "all") None) onsuccess
      {| V1.domains := {["a.com" := mkAggregate "a.com" 1 50 1;
                         "b.org" := mkAggregate "b.org" 2 20 3]} |}
    = success [mkAggregate "b.org" 2 20 3; mkAggregate "a.com" 1 50 1]
  ∧ ¬ StronglySorted (λ x y, lastVisit y <= lastVisit x)
        [mkAggregate "b.org" 2 20 3; mkAggregate "a.com" 1 50 1].
Proof.
  split; [vm_compute; reflexivity|]. split; [vm_compute; reflexivity|].
  intros Hs. apply StronglySorted_inv in Hs as [_ Hf].
  apply Forall_inv in Hf. cbn in Hf. lia.
Qed.

(** ** The period query *)

Lemma List_filter_perm {A} (f : A → bool) l l' :
  l ≡ₚ l' → List.filter f l ≡ₚ List.filter f l'.
Proof.
  induction 1 as [|x l l' _ IH|x y l|l1 l2 l3 _ IH1 _ IH2]; cbn.
  - done.
  - destruct (f x); by rewrite IH.
  - destruct (f x), (f y); try done. apply Permutation_swap.
  - by rewrite IH1.
Qed.

Lemma is_latest_perm m l l' : l ≡ₚ l' → V2.is_latest m l → V2.is_latest m l'.
Proof.
  intros Hp [(v & Hv & Hm) Hle]. split.
  - exists v. by rewrite <- Hp.
  - intros w Hw. apply Hle. by rewrite Hp.
Qed.

Lemma visits_of_cursor d start rows :
  V2.visits_of d (V2.visits_cursor start rows) ≡ₚ V2.visits_since start d rows.
Proof.
  unfold V2.visits_of, V2.visits_cursor, V2.visits_since.
  rewrite (List_filter_perm _ _ _ (array_sort_perm _ _)).
  induction rows as [|v rows IH]; [done|].
  cbn. repeat case_bool_decide; cbn; rewrite ?bool_decide_eq_true_2 by done;
    rewrite ?bool_decide_eq_false_2 by done; by rewrite ?IH.
Qed.

Lemma is_latest_snoc m rows v :
  V2.is_latest m rows →
  V2.is_latest (if decide (m < timestamp v) then timestamp v else m)
               (rows ++ [v]).
Proof.
  intros [(w & Hw & Hm) Hle]. split.
  - case_decide.
    + exists v. split; [|done]. apply elem_of_app. right.
      by apply list_elem_of_singleton.
    + exists w. split; [|done]. apply elem_of_app. by left.
  - intros u [Hu | Hu]%elem_of_app.
    + specialize (Hle u Hu). case_decide; lia.
    + apply list_elem_of_singleton in Hu as ->. case_decide; lia.
Qed.

Lemma is_latest_singleton v : V2.is_latest (timestamp v) [v].
Proof.
  split.
  - exists v. split; [|done]. by apply list_elem_of_singleton.
  - intros u Hu. apply list_elem_of_singleton in Hu as ->. lia.
Qed.

Lemma proto_is_member : "__proto__" ∈ Object_prototype_members.
Proof. apply (bool_decide_unpack _). reflexivity. Qed.

Lemma set_property_lookup_ne {V} (o : gmap string V) k k' v :
  k ≠ k' → set_property o k v !! k' = o !! k'.
Proof.
  intros Hne. unfold set_property. case_decide; [done|].
  by rewrite lookup_insert_ne.
Qed.

Lemma set_property_lookup_eq {V} (o : gmap string V) k v :
  k ∉ Object_prototype_members → set_property o k v !! k = Some v.
Proof.
  intros Hk. unfold set_property. case_decide as Hp.
  - subst. destruct Hk. apply proto_is_member.
  - by rewrite lookup_insert_eq.
Qed.

Lemma get_property_plain {V} (o : gmap string V) k :
  k ∉ Object_prototype_members →
  get_property o k = match o !! k with Some v => Own v | None => Undefined end.
Proof.
  intros Hk. unfold get_property. destruct (o !! k); [done|].
  by rewrite bool_decide_eq_false_2.
Qed.

Lemma tally_other acc v d :
  visit_domain v ≠ d →
  (V2.tally acc v).1 !! d = acc.1 !! d ∧ (V2.tally acc v).2 !! d = acc.2 !! d.
Proof.
  intros Hne. unfold V2.tally. cbn [fst snd]. split.
  - by apply set_property_lookup_ne.
  - destruct (get_property acc.2 (visit_domain v)); [case_decide|..];
      by rewrite ?set_property_lookup_ne.
Qed.

Lemma tallied_snoc rows acc v d :
  V2.tallied rows acc d → V2.tallied (rows ++ [v]) (V2.tally acc v) d.
Proof.
  unfold V2.tallied. intros Ht. rewrite visits_of_app.
  destruct (decide (visit_domain v = d)) as [<-|Hne].
  2:{ destruct (tally_other acc v d Hne) as [-> ->].
      assert (V2.visits_of d [v] = []) as ->.
      { unfold V2.visits_of. cbn. by rewrite bool_decide_eq_false_2. }
      by rewrite app_nil_r. }
  assert (V2.visits_of (visit_domain v) [v] = [v]) as ->.
  { unfold V2.visits_of. cbn. by rewrite bool_decide_eq_true_2. }
  unfold V2.tally. cbn [fst snd].
  case_bool_decide as Hmem.
  - destruct Ht as [Hc Hl]. unfold get_property. rewrite Hl.
    rewrite bool_decide_eq_true_2 by done. split; [|done].
    intros n. unfold set_property. case_decide; [apply Hc|].
    rewrite lookup_insert_eq.
    destruct (acc.1 !! visit_domain v) as [[m|k]|] eqn:Hv; try done.
    by destruct (Hc m).
  - rewrite !get_property_plain by done.
    destruct (V2.visits_of (visit_domain v) rows) as [|w ws] eqn:Hrows.
    + destruct Ht as [Hc Hl]. rewrite Hc, Hl.
      rewrite !set_property_lookup_eq by done. cbn.
      split; [done|]. exists (timestamp v). split; [done|].
      apply is_latest_singleton.
    + destruct Ht as [Hc (m & Hl & Hm)]. rewrite Hc, Hl.
      rewrite set_property_lookup_eq by done. cbn [app].
      change (w :: ws ++ [v]) with ((w :: ws) ++ [v]).
      split.
      * do 2 f_equal. rewrite length_app. cbn [length]. lia.
      * exists (if decide (m < timestamp v) then timestamp v else m).
        split; [|by apply is_latest_snoc].
        case_decide; [by rewrite set_property_lookup_eq|done].
Qed.

Lemma tallied_foldl rows d :
  V2.tallied rows (foldl V2.tally (∅, ∅) rows) d.
Proof.
  induction rows as [|v rows IH] using rev_ind.
  - unfold V2.tallied. cbn. rewrite !lookup_empty.
    by case_bool_decide.
  - rewrite foldl_snoc. by apply tallied_snoc.
Qed.

Lemma domains_cursor_elem sortBy (store : gmap string DomainAggregate) a :
  a ∈ domains_cursor sortBy store ↔ ∃ k, store !! k = Some a.
Proof.
  unfold domains_cursor.
  assert (a ∈ (map_to_list store).*2 ↔ ∃ k, store !! k = Some a) as Hm.
  { rewrite list_elem_of_fmap. split.
    - intros ([k a'] & -> & Hin). exists k. by apply elem_of_map_to_list.
    - intros (k & Hk). exists (k, a). split; [done|].
      by apply elem_of_map_to_list. }
  repeat case_decide; by rewrite array_sort_perm.
Qed.

Lemma positive_count_true visitCounts d :
  V2.positive_count visitCounts d = true ↔
    ∃ n, visitCounts !! d = Some (Count n) ∧ 0 < n.
Proof.
  unfold V2.positive_count, get_property.
  destruct (visitCounts !! d) as [[n|k]|].
  - rewrite bool_decide_eq_true. split; [by exists n|].
    by intros (m & [= <-] & ?).
  - split; [done|]. by intros (m & ? & ?).
  - split; [by case_bool_decide|]. by intros (m & ? & ?).
Qed.

Lemma build_result_elem visitCounts lastVisits domains r :
  r ∈ V2.build_result visitCounts lastVisits domains ↔
    ∃ a n, a ∈ domains ∧ visitCounts !! domain a = Some (Count n) ∧ 0 < n
           ∧ r = {| V2.row_domain := domain a;
                    V2.row_firstVisit := firstVisit a;
                    V2.row_lastVisit :=
                      V2.last_or lastVisits (domain a) (lastVisit a);
                    V2.row_visitCount := n;
                    V2.row_periodVisitCount := n |}.
Proof.
  unfold V2.build_result.
  rewrite list_elem_of_In, List.in_map_iff. split.
  - intros (a & <- & Ha). apply List.filter_In in Ha as [Ha Hf].
    apply positive_count_true in Hf as (n & Hn & Hpos).
    exists a, n. rewrite list_elem_of_In.
    unfold V2.count_or_0, get_property. by rewrite Hn.
  - intros (a & n & Ha & Hn & Hpos & ->). exists a. split.
    + unfold V2.count_or_0, get_property. by rewrite Hn.
    + apply List.filter_In. rewrite <- list_elem_of_In. split; [done|].
      apply positive_count_true. by exists n.
Qed.

(** The rows of a period query, field by field. *)
Lemma getDomainsForPeriod_rows tz now period db :
  ∃ rows,
    V2.getDomainsForPeriod tz now period V2.read_ok db = Resolved rows
    ∧ ∀ r, r ∈ rows ↔
        ∃ k a, V2.domains db !! k = Some a
          ∧ (domain a ∉ Object_prototype_members)
          ∧ V2.visits_since (V2.startDate tz now period) (domain a)
              (V2.visits db) ≠ []
          ∧ V2.row_domain r = domain a
          ∧ V2.row_firstVisit r = firstVisit a
          ∧ V2.row_visitCount r =
              Z.of_nat (length (V2.visits_since (V2.startDate tz now period)
                                  (domain a) (V2.visits db)))
          ∧ V2.row_periodVisitCount r = V2.row_visitCount r
          ∧ V2.is_latest (V2.row_lastVisit r)
              (V2.visits_since (V2.startDate tz now period) (domain a)
                 (V2.visits db)).
Proof.
  eexists. split; [reflexivity|]. intros r.
  rewrite build_result_elem.
  set (start := V2.startDate tz now period).
  set (L := V2.visits_cursor start (V2.visits db)).
  split.
  - intros (a & n & Ha & Hn & Hpos & ->).
    apply domains_cursor_elem in Ha as [k Hk]. exists k, a.
    pose proof (tallied_foldl L (domain a)) as Ht. unfold V2.tallied in Ht.
    pose proof (visits_of_cursor (domain a) start (V2.visits db)) as Hp.
    fold L in Hp.
    case_bool_decide as Hmem; [destruct Ht as [Ht _]; by destruct (Ht n)|].
    destruct (V2.visits_of (domain a) L) as [|w ws] eqn:HL.
    { destruct Ht as [Ht _]. congruence. }
    destruct Ht as [Hc (m & Hm & Hlat)].
    assert (n = Z.of_nat (length (w :: ws))) as -> by congruence.
    unfold V2.last_or. rewrite get_property_plain, Hm by done.
    cbn [V2.row_domain V2.row_firstVisit V2.row_lastVisit
         V2.row_visitCount V2.row_periodVisitCount].
    split; [done|]. split; [done|]. split.
    { intros Hnil. rewrite Hnil in Hp. by apply Permutation_nil_r in Hp. }
    split; [done|]. split; [done|]. split.
    { by rewrite (Permutation_length Hp). }
    split; [done|]. by eapply is_latest_perm.
  - intros (k & a & Hk & Hmem & Hne & Hd & Hf & Hc & Hpc & Hlat).
    pose proof (tallied_foldl L (domain a)) as Ht. unfold V2.tallied in Ht.
    rewrite bool_decide_eq_false_2 in Ht by done.
    pose proof (visits_of_cursor (domain a) start (V2.visits db)) as Hp.
    fold L in Hp.
    destruct (V2.visits_of (domain a) L) as [|w ws] eqn:HL.
    { apply Permutation_nil_l in Hp. done. }
    destruct Ht as [Hcount (m & Hm & Hlat')].
    exists a, (Z.of_nat (length (w :: ws))).
    split; [apply domains_cursor_elem; by exists k|].
    split; [done|]. split; [cbn [length]; lia|].
    unfold V2.last_or. rewrite get_property_plain, Hm by done.
    assert (m = V2.row_lastVisit r) as ->.
    { apply (is_latest_perm _ _ _ Hp) in Hlat'.
      destruct Hlat as [(v1 & Hv1 & <-) Hle1], Hlat' as [(v2 & Hv2 & <-) Hle2].
      specialize (Hle1 v2 Hv2). specialize (Hle2 v1 Hv1). lia. }
    rewrite (Permutation_length Hp) in *.
    destruct r as [rd rf rl rc rp]. cbn in *. congruence.
Qed.

Lemma visits_since_elem start d rows v :
  v ∈ V2.visits_since start d rows ↔
    v ∈ rows ∧ visit_domain v = d ∧ start <= timestamp v.
Proof.
  unfold V2.visits_since. rewrite list_elem_of_In, List.filter_In.
  rewrite <- list_elem_of_In, visits_of_elem, bool_decide_eq_true. tauto.
Qed.

Lemma visits_since_nonempty start d rows :
  V2.visits_since start d rows ≠ [] ↔
    ∃ v, v ∈ rows ∧ visit_domain v = d ∧ start <= timestamp v.
Proof.
  split.
  - destruct (V2.visits_since start d rows) as [|v l] eqn:Hl; [done|].
    intros _. exists v. apply visits_since_elem. rewrite Hl. by left.
  - intros (v & Hv) Hnil. apply visits_since_elem in Hv.
    rewrite Hnil in Hv. by apply elem_of_nil in Hv.
Qed.

Lemma V1_reachable_keyed db :
  V1.reachable db → ∀ k a, V1.domains db !! k = Some a → domain a = k.
Proof.
  induction 1 as [|d now [[] []] db _ IH|[] db _ IH]; cbn; try done.
  intros k a. rewrite domainData_domain.
  destruct (decide (d = k)) as [->|Hne].
  - rewrite lookup_insert_eq. intros [= <-]. apply domainData_domain.
  - rewrite lookup_insert_ne by done. apply IH.
Qed.

Lemma V2_reachable_inv db : V2.reachable db → V2.store_inv db.
Proof.
  induction 1 as [|old Hold|d now o db _ IH|[[] []] db _ IH]; try done.
  - split; [done|]. intros v Hv. by apply elem_of_nil in Hv.
  - split; [by apply V1_reachable_keyed|].
    intros v Hv. by apply elem_of_nil in Hv.
  - destruct (io_ok_or_failed o) as [-> | Hf];
      [|by rewrite addOrUpdateDomain_failed].
    rewrite addOrUpdateDomain_ok. destruct IH as [Hkey Hvis].
    split; cbn [V2.add_visit V2.put_domain V2.domains V2.visits];
      rewrite domainData_domain.
    + intros k a. destruct (decide (d = k)) as [->|Hne].
      * rewrite lookup_insert_eq. intros [= <-]. apply domainData_domain.
      * rewrite lookup_insert_ne by done. apply Hkey.
    + intros v [Hv | Hv]%elem_of_app.
      * destruct (decide (d = visit_domain v)) as [->|Hne].
        -- rewrite lookup_insert_eq. by eexists.
        -- rewrite lookup_insert_ne by done. by apply Hvis.
      * apply list_elem_of_singleton in Hv as ->. cbn.
        rewrite lookup_insert_eq. by eexists.
  - split; cbn; [done|]. intros v Hv. by apply elem_of_nil in Hv.
Qed.

(** Under the store invariant, the domains of the result are the domains
    with a visit in the period whose name is not a member of
    [Object.prototype]. *)
Lemma period_rows_domain tz now period db d :
  V2.store_inv db →
  ∃ rows,
    V2.getDomainsForPeriod tz now period V2.read_ok db = Resolved rows
    ∧ ((∃ r, r ∈ rows ∧ V2.row_domain r = d) ↔
       (d ∉ Object_prototype_members)
       ∧ V2.visits_since (V2.startDate tz now period) d (V2.visits db) ≠ []).
Proof.
  intros [Hkey Hvis].
  destruct (getDomainsForPeriod_rows tz now period db) as (rows & Hrows & Hr).
  exists rows. split; [done|]. split.
  - intros (r & Hin & <-).
    apply Hr in Hin as (k & a & _ & Hmem & Hne & -> & _). done.
  - intros [Hmem Hne]. pose proof Hne as Hne'.
    apply visits_since_nonempty in Hne' as (v & Hv & <- & Hstart).
    destruct (Hvis v Hv) as [a Ha]. pose proof (Hkey _ _ Ha) as Hd.
    unfold V2.getDomainsForPeriod, V2.getAllDomains in Hrows.
    cbn [V2.read_ok V2.domains_read V2.visits_read] in Hrows.
    injection Hrows as <-.
    set (L := V2.visits_cursor (V2.startDate tz now period) (V2.visits db)).
    pose proof (tallied_foldl L (visit_domain v)) as Ht.
    unfold V2.tallied in Ht.
    rewrite bool_decide_eq_false_2 in Ht by done.
    pose proof (visits_of_cursor (visit_domain v)
                  (V2.startDate tz now period) (V2.visits db)) as Hp.
    fold L in Hp.
    destruct (V2.visits_of (visit_domain v) L) as [|w ws] eqn:HL.
    { apply Permutation_nil_l in Hp. done. }
    destruct Ht as [Hcount _].
    eexists. split.
    + apply build_result_elem. exists a, (Z.of_nat (length (w :: ws))).
      split; [apply domains_cursor_elem; by eexists|].
      split; [by rewrite Hd|]. split; [cbn [length]; lia|reflexivity].
    + cbn. by rewrite Hd.
Qed.

(** In every state the store goes through the period query returns a
    sequence, and a domain is in it if and only if its name is not that of
    a member of [Object.prototype] and it has a visit event at or after the
    period's start boundary. *)
Lemma period_domains_iff (tz now : Z) (period : string) (db : V2.DB) :
  V2.reachable db →
  ∃ rows,
    V2.getDomainsForPeriod tz now period V2.read_ok db = Resolved rows
    ∧ ∀ d, d ∈ V2.row_domain <$> rows ↔
        (d ∉ Object_prototype_members)
        ∧ ∃ v, v ∈ V2.visits db ∧ visit_domain v = d
               ∧ V2.startDate tz now period <= timestamp v.
Proof.
  intros Hreach. apply V2_reachable_inv in Hreach.
  eexists. split; [reflexivity|]. intros d.
  destruct (period_rows_domain tz now period db d Hreach) as (rows & Hrows & Hd).
  injection Hrows as <-.
  rewrite <- visits_since_nonempty, <- Hd, list_elem_of_fmap.
  split; intros (r & H1 & H2); exists r; done.
Qed.

(** C7. A host name that is a member name of [Object.prototype]: the store
    reached by recording one visit to [constructor], one to [__proto__] and
    one to [a.com] holds an aggregate and a visit event for each of the
    three, all within every period of a query at time 100; the period query
    returns [a.com] only.  [visitCounts] is a plain object: the first read
    of [visitCounts['constructor']] finds the inherited function, the sum
    is a string, and [visitCounts[d] > 0] fails for it. *)
Theorem prototype_named_host_dropped :
  let db := V2.run [V2.mkCall "constructor" 10 V2.io_ok;
                    V2.mkCall "__proto__" 20 V2.io_ok;
                    V2.mkCall "a.com" 30 V2.io_ok] V2.empty in
  V2.reachable db
  ∧ V2.visits db = [mkVisit 1 "constructor" 10; mkVisit 2 "__proto__" 20;
                    mkVisit 3 "a.com" 30]
  ∧ V2.domains db !! "constructor" = Some (mkAggregate "constructor" 10 10 1)
  ∧ V2.domains db !! "__proto__" = Some (mkAggregate "__proto__" 20 20 1)
  ∧ (∀ period,
       V2.getDomainsForPeriod 0 100 period V2.read_ok db
       = Resolved [V2.mkRow "a.com" 30 30 1 1]).
Proof.
  intros db. split.
  { apply (V2.reach_add "a.com" 30 V2.io_ok).
    apply (V2.reach_add "__proto__" 20 V2.io_ok).
    apply (V2.reach_add "constructor" 10 V2.io_ok). apply V2.reach_empty. }
  split; [reflexivity|]. split; [reflexivity|]. split; [reflexivity|].
  intros period. unfold V2.getDomainsForPeriod.
  cbn [V2.getAllDomains V2.read_ok V2.domains_read V2.visits_read].
  assert (V2.visits_cursor (V2.startDate 0 100 period) (V2.visits db)
          = V2.visits db) as ->.
  { unfold V2.startDate. repeat case_decide; reflexivity. }
  vm_compute. reflexivity.
Qed.

Lemma find_row_domain d rows :
  match List.find (λ r, bool_decide (V2.row_domain r = d)) rows with
  | Some r => r ∈ rows ∧ V2.row_domain r = d
  | None => ∀ r, r ∈ rows → V2.row_domain r ≠ d
  end.
Proof.
  destruct (List.find _ rows) as [r|] eqn:Hfind.
  - apply List.find_some in Hfind as [Hin Hd].
    by rewrite list_elem_of_In, <- (bool_decide_eq_true (V2.row_domain r = d)).
  - intros r Hin%list_elem_of_In.
    apply (List.find_none _ _ Hfind) in Hin.
    by apply bool_decide_eq_false in Hin.
Qed.

(** C10. In the full-schema period query every returned record is built
    from an aggregate [a] of the store and the visit events of its domain
    in the period: [domain] and [firstVisit] are the aggregate's,
    [visitCount] is the number of those events (at least one), [lastVisit]
    is their latest timestamp, and [periodVisitCount] repeats
    [visitCount].  These are all the fields of the record: the aggregate's
    lifetime [visitCount] is not among them.  So what the content script
    reads for its domain from a [getDomains] response is, when it finds a
    record, the number of visit events of that domain in the period, and 0
    when it finds none; in the states the store goes through it finds the
    record of every domain with a visit in the period whose name is not
    that of a member of [Object.prototype]. *)
Theorem period_rows_carry_period_values (tz now : Z) (period : string)
    (db : V2.DB) :
  ∃ rows,
    V2.getDomainsForPeriod tz now period V2.read_ok db = Resolved rows
    ∧ (∀ r, r ∈ rows →
         ∃ k a in_period,
           V2.domains db !! k = Some a
           ∧ in_period = V2.visits_since (V2.startDate tz now period)
                           (V2.row_domain r) (V2.visits db)
           ∧ in_period ≠ []
           ∧ r = {| V2.row_domain := domain a;
                    V2.row_firstVisit := firstVisit a;
                    V2.row_lastVisit := V2.row_lastVisit r;
                    V2.row_visitCount := Z.of_nat (length in_period);
                    V2.row_periodVisitCount := Z.of_nat (length in_period) |}
           ∧ V2.is_latest (V2.row_lastVisit r) in_period)
    ∧ (∀ currentDomain,
         match List.find (λ r, bool_decide (V2.row_domain r = currentDomain))
                         rows with
         | Some r =>
             r ∈ rows
             ∧ Content.visitCount_in currentDomain rows =
                 Z.of_nat (length (V2.visits_since (V2.startDate tz now period)
                                     currentDomain (V2.visits db)))
         | None => Content.visitCount_in currentDomain rows = 0
         end)
    ∧ (V2.reachable db →
       ∀ currentDomain,
         currentDomain ∉ Object_prototype_members →
         Content.visitCount_in currentDomain rows =
           Z.of_nat (length (V2.visits_since (V2.startDate tz now period)
                               currentDomain (V2.visits db)))).
Proof.
  destruct (getDomainsForPeriod_rows tz now period db) as (rows & Hrows & Hr).
  exists rows. split; [done|]. split; [|split].
  - intros r Hin.
    apply Hr in Hin as (k & a & Hk & _ & Hne & Hd & Hf & Hc & Hpc & Hlat).
    exists k, a, (V2.visits_since (V2.startDate tz now period)
                    (V2.row_domain r) (V2.visits db)).
    rewrite Hd. repeat (split; [done|]). split; [|done].
    destruct r as [rd rf rl rc rp]. cbn in *. congruence.
  - intros currentDomain. unfold Content.visitCount_in.
    pose proof (find_row_domain currentDomain rows) as Hfind.
    destruct (List.find _ rows) as [r|]; [|done].
    destruct Hfind as [Hin <-]. split; [done|].
    apply Hr in Hin as (k & a & _ & _ & _ & -> & _ & -> & _). done.
  - intros Hreach%V2_reachable_inv currentDomain Hmem.
    unfold Content.visitCount_in.
    pose proof (find_row_domain currentDomain rows) as Hfind.
    destruct (List.find _ rows) as [r|].
    + destruct Hfind as [Hin <-].
      apply Hr in Hin as (k & a & _ & _ & _ & -> & _ & -> & _). done.
    + destruct (period_rows_domain tz now period db currentDomain Hreach)
        as (rows' & Hrows' & Hiff).
      assert (rows' = rows) as -> by congruence.
      destruct (V2.visits_since _ currentDomain _) as [|v l] eqn:Hl; [done|].
      destruct (proj2 Hiff ltac:(done)) as (r & Hin & Hd).
      by apply Hfind in Hin.
Qed.

Lemma period_rows_carry_period_values_witness :
  let db := V2.run [V2.mkCall "example.com" 1000 V2.io_ok;
                    V2.mkCall "example.com" 61000 V2.io_ok;
                    V2.mkCall "example.com" 90001000 V2.io_ok] V2.empty in
  V2.reachable db
  ∧ visitCount <$> V2.domains db !! "example.com" = Some 3
  ∧ ∃ rows,
      V2.getDomainsForPeriod 0 93601000 "today" V2.read_ok db = Resolved rows
      ∧ Content.visitCount_in "example.com" rows = 1.
Proof.
  intros db.
  assert (V2.reachable db) as Hreach.
  { apply (V2.reach_add "example.com" 90001000 V2.io_ok).
    apply (V2.reach_add "example.com" 61000 V2.io_ok).
    apply (V2.reach_add "example.com" 1000 V2.io_ok). apply V2.reach_empty. }
  split; [exact Hreach|]. split; [reflexivity|].
  destruct (period_rows_carry_period_values 0 93601000 "today" db)
    as (rows & Hrows & _ & _ & Hcount).
  exists rows. split; [exact Hrows|].
  rewrite (Hcount Hreach "example.com"); [reflexivity|].
  intros Hin. by apply (bool_decide_pack _) in Hin.
Defined.

(** ** The enforcement dispatcher *)

Lemma count_app f l1 l2 :
  Content.count f (l1 ++ l2) = (Content.count f l1 + Content.count f l2)%nat.
Proof. unfold Content.count. by rewrite List.filter_app, length_app. Qed.

Lemma count_filter_le f g l :
  (Content.count f (List.filter g l) <= Content.count f l)%nat.
Proof.
  unfold Content.count. induction l as [|x l IH]; [done|].
  cbn. destruct (g x); cbn; destruct (f x); cbn; lia.
Qed.

Lemma count_zero f l :
  (∀ n, n ∈ l → f n = false) → Content.count f l = 0%nat.
Proof.
  unfold Content.count. induction l as [|x l IH]; intros H; [done|].
  cbn. rewrite (H x) by apply list_elem_of_here.
  apply IH. intros n Hn. apply H. by apply list_elem_of_further.
Qed.

Lemma filter_elem {A} (g : A → bool) l (n : A) :
  n ∈ List.filter g l → n ∈ l.
Proof. rewrite !list_elem_of_In, List.filter_In. tauto. Qed.

Lemma count_singleton f n :
  Content.count f [n] = if f n then 1%nat else 0%nat.
Proof. unfold Content.count. cbn. by destruct (f n). Qed.

Ltac page_simpl :=
  cbn [Content.displayThreatMessage Content.with_body Content.fresh
       Content.quotaShown Content.hardBlocked Content.overlay Content.body
       Content.created];
  rewrite ?count_app, ?count_singleton;
  cbn [Content.is_message Content.is_overlay].

Lemma fresh_inv : Content.page_inv Content.fresh.
Proof.
  split; page_simpl; try done.
  - unfold Content.count. cbn. lia.
  - intros n Hn. by apply elem_of_nil in Hn.
Qed.

Lemma showQuotaExceededMessage_inv t p :
  Content.page_inv p → Content.page_inv (Content.showQuotaExceededMessage t p).
Proof.
  intros [Hm Ho Hbm Hbo Hheld Hov Hun].
  unfold Content.showQuotaExceededMessage.
  destruct (Content.quotaShown p) eqn:Hshown; [by split; rewrite ?Hshown|].
  split; page_simpl; try done; try lia.
  intros n [Hn | Hn]%elem_of_app; [by apply Hheld|].
  apply list_elem_of_singleton in Hn as ->. done.
Qed.

Lemma showHardBlockOverlay_inv d visits max p :
  Content.page_inv p →
  Content.page_inv (Content.showHardBlockOverlay d visits max p).
Proof.
  intros [Hm Ho Hbm Hbo Hheld Hov Hun].
  unfold Content.showHardBlockOverlay.
  destruct (Content.hardBlocked p) eqn:Hblocked; [by split; rewrite ?Hblocked|].
  assert (Content.count Content.is_overlay (Content.body p) = 0%nat) as Hz.
  { apply count_zero. intros n Hn.
    destruct (Content.is_overlay n) eqn:Hn'; [|done].
    rewrite (Hun eq_refl) in Hheld. by specialize (Hheld n Hn Hn'). }
  split; page_simpl; try done; try lia.
  - intros n [Hn | Hn]%elem_of_app.
    + intros Hn'. rewrite (Hun eq_refl) in Hheld. by specialize (Hheld n Hn Hn').
    + apply list_elem_of_singleton in Hn as ->. done.
  - by intros o [= <-].
Qed.

Lemma observer_inv p : Content.page_inv p → Content.page_inv (Content.observer p).
Proof.
  intros [Hm Ho Hbm Hbo Hheld Hov Hun]. unfold Content.observer.
  destruct (Content.overlay p) as [o|] eqn:Hover; [|by split; rewrite ?Hover].
  case_bool_decide as Hin; [by split; rewrite ?Hover|].
  assert (Content.count Content.is_overlay (Content.body p) = 0%nat) as Hz.
  { apply count_zero. intros n Hn.
    destruct (Content.is_overlay n) eqn:Hn'; [|done].
    specialize (Hheld n Hn Hn'). congruence. }
  pose proof (Hov o eq_refl) as Hoo.
  assert (Content.is_message o = false) as Hmo by (by destruct o).
  split; page_simpl; rewrite ?Hmo, ?Hoo; try done; try lia.
  intros n [Hn | Hn]%elem_of_app; [by apply Hheld|].
  by apply list_elem_of_singleton in Hn as ->.
Qed.

Lemma with_body_filter_inv g p :
  Content.page_inv p →
  Content.page_inv (Content.with_body (List.filter g (Content.body p)) p).
Proof.
  intros [Hm Ho Hbm Hbo Hheld Hov Hun]. split; page_simpl; try done.
  - pose proof (count_filter_le Content.is_message g (Content.body p)). lia.
  - pose proof (count_filter_le Content.is_overlay g (Content.body p)). lia.
  - intros n Hn. apply Hheld. by eapply filter_elem.
Qed.

Lemma handle_inv p e : Content.page_inv p → Content.page_inv (Content.handle p e).
Proof.
  intros Hp. destruct e as [t|d v m|s d v| |keep]; cbn [Content.handle].
  - by apply showQuotaExceededMessage_inv.
  - by apply showHardBlockOverlay_inv.
  - rewrite maybeHardBlock_spec, maybeShowQuotaMessage_spec.
    destruct (Content.quotaEnabled s), (Content.hardBlockEnabled s);
      cbn [andb]; repeat case_decide;
      auto using showQuotaExceededMessage_inv, showHardBlockOverlay_inv.
  - by apply with_body_filter_inv.
  - by apply observer_inv, with_body_filter_inv.
Qed.

Lemma run_inv es p :
  Content.page_inv p → Content.page_inv (foldl Content.handle p es).
Proof.
  revert p. induction es as [|e es IH]; intros p Hp; [done|].
  cbn. by apply IH, handle_inv.
Qed.

(** C9. Within one page instance, however often and with whatever
    arguments the soft-warning path and the hard-block path are invoked
    (directly, by a message from the background script, or by a quota
    check), and whatever the page and the timers do in between: at most one
    quota notification and at most one block overlay are ever created, and
    [document.body] never holds more than one of each.  A second invocation
    of either path changes nothing. *)
Theorem dispatcher_idempotent (es : list Content.event) :
  let p := foldl Content.handle Content.fresh es in
  (Content.count Content.is_message (Content.created p) <= 1)%nat
  ∧ (Content.count Content.is_overlay (Content.created p) <= 1)%nat
  ∧ (Content.count Content.is_message (Content.body p) <= 1)%nat
  ∧ (Content.count Content.is_overlay (Content.body p) <= 1)%nat
  ∧ (∀ t t',
       Content.showQuotaExceededMessage t'
         (Content.showQuotaExceededMessage t p)
       = Content.showQuotaExceededMessage t p)
  ∧ (∀ d v m d' v' m',
       Content.showHardBlockOverlay d' v' m'
         (Content.showHardBlockOverlay d v m p)
       = Content.showHardBlockOverlay d v m p).
Proof.
  intros p. destruct (run_inv es _ fresh_inv) as [Hm Ho Hbm Hbo _ _ _].
  fold p in Hm, Ho, Hbm, Hbo.
  split; [destruct (Content.quotaShown p); lia|].
  split; [destruct (Content.hardBlocked p); lia|].
  split; [destruct (Content.quotaShown p); lia|].
  split; [done|]. split.
  - intros t t'. unfold Content.showQuotaExceededMessage.
    by destruct (Content.quotaShown p) eqn:Hs; cbn; rewrite ?Hs.
  - intros d v m d' v' m'. unfold Content.showHardBlockOverlay.
    by destruct (Content.hardBlocked p) eqn:Hs; cbn; rewrite ?Hs.
Qed.

(** * Further properties of the code *)

(** ** Listing the aggregates *)

Lemma compare_Z_spec a b :
  (compare_Z a b = -1 ∧ a < b) ∨ (compare_Z a b = 0 ∧ a = b)
  ∨ (compare_Z a b = 1 ∧ b < a).
Proof. unfold compare_Z. repeat case_decide; lia. Qed.

Lemma index_prev_le (key : DomainAggregate → Z) a b :
  index_prev key a b <= 0 → key b <= key a.
Proof.
  unfold index_prev.
  destruct (compare_Z_spec (key b) (key a)) as [[-> ?]|[[-> ?]|[-> ?]]];
    case_decide; lia.
Qed.

Lemma index_prev_gt (key : DomainAggregate → Z) a b :
  ¬ index_prev key a b <= 0 → key a <= key b.
Proof.
  unfold index_prev.
  destruct (compare_Z_spec (key b) (key a)) as [[-> ?]|[[-> ?]|[-> ?]]];
    case_decide; lia.
Qed.

Lemma sort_insert_by_key {A} (key : A → Z) (cmp : A → A → Z) x l :
  (∀ a b, cmp a b <= 0 → key b <= key a) →
  (∀ a b, ¬ cmp a b <= 0 → key a <= key b) →
  StronglySorted (λ a b, key b <= key a) l →
  StronglySorted (λ a b, key b <= key a) (sort_insert cmp x l).
Proof.
  intros Hle Hgt. induction l as [|y l IH]; intros Hs.
  - repeat constructor.
  - apply StronglySorted_inv in Hs as [Hl Hy]. cbn [sort_insert].
    case_decide as Hc.
    + apply Hle in Hc. constructor; [by constructor|].
      constructor; [done|].
      eapply Forall_impl; [exact Hy|]. cbn. intros; lia.
    + apply Hgt in Hc. constructor; [by apply IH|].
      rewrite array_sort_insert_perm. by constructor.
Qed.

Lemma array_sort_by_key {A} (key : A → Z) (cmp : A → A → Z) l :
  (∀ a b, cmp a b <= 0 → key b <= key a) →
  (∀ a b, ¬ cmp a b <= 0 → key a <= key b) →
  StronglySorted (λ a b, key b <= key a) (array_sort cmp l).
Proof.
  intros Hle Hgt. induction l as [|x l IH]; [constructor|].
  cbn. by apply sort_insert_by_key.
Qed.

Lemma domains_cursor_perm sortBy (store : gmap string DomainAggregate) :
  domains_cursor sortBy store ≡ₚ (map_to_list store).*2.
Proof. unfold domains_cursor. repeat case_decide; apply array_sort_perm. Qed.

(** X1. [getAllDomains] of either store: when the cursor request succeeds
    the promise resolves with the stored aggregates, each once, in
    descending order of [lastVisit] for [sortBy = 'lastVisit'] and of
    [visitCount] for [sortBy = 'visitCount']; when it fails the promise
    rejects with 'Failed to fetch domains'. *)
Theorem getAllDomains_sorted (sortBy : string) (o : outcome)
    (db1 : V1.DB) (db2 : V2.DB) :
  match o with
  | onsuccess =>
      ∃ l1 l2,
        V1.getAllDomains sortBy o db1 = Resolved l1
        ∧ V2.getAllDomains sortBy o db2 = Resolved l2
        ∧ l1 ≡ₚ (map_to_list (V1.domains db1)).*2
        ∧ l2 ≡ₚ (map_to_list (V2.domains db2)).*2
        ∧ (sortBy = "lastVisit" →
           StronglySorted (λ a b, lastVisit b <= lastVisit a) l1
           ∧ StronglySorted (λ a b, lastVisit b <= lastVisit a) l2)
        ∧ (sortBy = "visitCount" →
           StronglySorted (λ a b, visitCount b <= visitCount a) l1
           ∧ StronglySorted (λ a b, visitCount b <= visitCount a) l2)
  | onerror =>
      V1.getAllDomains sortBy o db1 = Rejected "Failed to fetch domains"
      ∧ V2.getAllDomains sortBy o db2 = Rejected "Failed to fetch domains"
  end.
Proof.
  destruct o; [|done].
  eexists _, _. split; [reflexivity|]. split; [reflexivity|].
  split; [apply domains_cursor_perm|]. split; [apply domains_cursor_perm|].
  split; intros ->; unfold domains_cursor; cbn;
    split; apply array_sort_by_key;
    auto using index_prev_le, index_prev_gt.
Qed.

Lemma getAllDomains_sorted_witness :
  V1.getAllDomains "visitCount" onsuccess
    {| V1.domains := {["a.com" := mkAggregate "a.com" 1 50 1;
                       "b.org" := mkAggregate "b.org" 2 20 3;
                       "c.net" := mkAggregate "c.net" 3 30 3]} |}
  = Resolved [mkAggregate "c.net" 3 30 3; mkAggregate "b.org" 2 20 3;
              mkAggregate "a.com" 1 50 1]
  ∧ StronglySorted (λ a b, visitCount b <= visitCount a)
      [mkAggregate "c.net" 3 30 3; mkAggregate "b.org" 2 20 3;
       mkAggregate "a.com" 1 50 1].
Proof.
  pose proof (getAllDomains_sorted "visitCount" onsuccess
    {| V1.domains := {["a.com" := mkAggregate "a.com" 1 50 1;
                       "b.org" := mkAggregate "b.org" 2 20 3;
                       "c.net" := mkAggregate "c.net" 3 30 3]} |} V2.empty)
    as (l1 & l2 & H1 & _ & _ & _ & _ & Hs).
  vm_compute in H1. injection H1 as <-.
  split; [vm_compute; reflexivity|]. exact (proj1 (Hs eq_refl)).
Defined.

(** ** Period queries of the aggregate-only stores *)

Lemma V1_period_elem tz now period db a :
  a ∈ List.filter (λ a, V1.filterByDate tz now period (lastVisit a))
        (domains_cursor "lastVisit" (V1.domains db)) ↔
    (∃ k, V1.domains db !! k = Some a)
    ∧ V1.filterByDate tz now period (lastVisit a) = true.
Proof.
  by rewrite list_elem_of_In, List.filter_In, <- list_elem_of_In,
    domains_cursor_elem.
Qed.

Lemma Legacy_period_elem now period db a :
  a ∈ List.filter (λ a, Legacy.filterByDate now period (lastVisit a))
        (domains_cursor "lastVisit" (V1.domains db)) ↔
    (∃ k, V1.domains db !! k = Some a)
    ∧ Legacy.filterByDate now period (lastVisit a) = true.
Proof.
  by rewrite list_elem_of_In, List.filter_In, <- list_elem_of_In,
    domains_cursor_elem.
Qed.

Lemma V1_filter_today_week tz now t :
  V1.filterByDate tz now "today" t = true →
  V1.filterByDate tz now "week" t = true.
Proof.
  rewrite V1_today_calendar_day.
  change (V1.filterByDate tz now "week" t)
    with (bool_decide (now - 7 * 24 * 60 * 60 * 1000 <= t)).
  rewrite bool_decide_eq_true. intros Hday.
  pose proof (localMidnight_bounds tz now) as Hn.
  assert (localMidnight tz now <= t) as Ht
    by (apply localMidnight_le_iff; lia).
  unfold msPerDay in Hn. lia.
Qed.

Lemma V1_filter_week_month tz now t :
  V1.filterByDate tz now "week" t = true →
  V1.filterByDate tz now "month" t = true.
Proof.
  change (V1.filterByDate tz now "week" t)
    with (bool_decide (now - 7 * 24 * 60 * 60 * 1000 <= t)).
  change (V1.filterByDate tz now "month" t)
    with (bool_decide (now - 30 * 24 * 60 * 60 * 1000 <= t)).
  rewrite !bool_decide_eq_true. lia.
Qed.

Lemma Legacy_filter_nested now t :
  (Legacy.filterByDate now "today" t = true →
   Legacy.filterByDate now "week" t = true)
  ∧ (Legacy.filterByDate now "week" t = true →
     Legacy.filterByDate now "month" t = true).
Proof.
  change (Legacy.filterByDate now "today" t)
    with (bool_decide (now - t < 1 * msPerDay)).
  change (Legacy.filterByDate now "week" t)
    with (bool_decide (now - t < 7 * msPerDay)).
  change (Legacy.filterByDate now "month" t)
    with (bool_decide (now - t < 30 * msPerDay)).
  rewrite !bool_decide_eq_true. unfold msPerDay. lia.
Qed.

(** X2. The period queries of the two aggregate-only stores return stored
    aggregates as they are (with their lifetime [visitCount]): 'all' returns
    every aggregate, and the results are nested, today's within the week's
    within the month's within all.  This holds of [background.js] for any
    time zone offset and of the stand-alone module. *)
Theorem aggregate_only_periods_nested (tz now : Z) (db : V1.DB) :
  (∃ lt lw lm la,
     V1.getDomainsForPeriod tz now "today" onsuccess db = Resolved lt
     ∧ V1.getDomainsForPeriod tz now "week" onsuccess db = Resolved lw
     ∧ V1.getDomainsForPeriod tz now "month" onsuccess db = Resolved lm
     ∧ V1.getDomainsForPeriod tz now "all" onsuccess db = Resolved la
     ∧ lt ⊆ lw ∧ lw ⊆ lm ∧ lm ⊆ la
     ∧ ∀ a, a ∈ la ↔ ∃ k, V1.domains db !! k = Some a)
  ∧ (∃ lt lw lm la,
     Legacy.getDomainsForPeriod now "today" onsuccess db = Resolved lt
     ∧ Legacy.getDomainsForPeriod now "week" onsuccess db = Resolved lw
     ∧ Legacy.getDomainsForPeriod now "month" onsuccess db = Resolved lm
     ∧ Legacy.getDomainsForPeriod now "all" onsuccess db = Resolved la
     ∧ lt ⊆ lw ∧ lw ⊆ lm ∧ lm ⊆ la
     ∧ ∀ a, a ∈ la ↔ ∃ k, V1.domains db !! k = Some a).
Proof.
  split.
  - eexists _, _, _, _. repeat (split; [reflexivity|]).
    split; [|split; [|split]].
    + intros a [Hs Hf]%V1_period_elem. apply V1_period_elem.
      split; [done|]. by apply V1_filter_today_week.
    + intros a [Hs Hf]%V1_period_elem. apply V1_period_elem.
      split; [done|]. by apply V1_filter_week_month.
    + intros a [Hs Hf]%V1_period_elem. apply V1_period_elem. by split.
    + intros a. rewrite V1_period_elem. split; [tauto|]. by split.
  - eexists _, _, _, _. repeat (split; [reflexivity|]).
    split; [|split; [|split]].
    + intros a [Hs Hf]%Legacy_period_elem. apply Legacy_period_elem.
      split; [done|]. by apply Legacy_filter_nested.
    + intros a [Hs Hf]%Legacy_period_elem. apply Legacy_period_elem.
      split; [done|]. by apply Legacy_filter_nested.
    + intros a [Hs Hf]%Legacy_period_elem. apply Legacy_period_elem. by split.
    + intros a. rewrite Legacy_period_elem. split; [tauto|]. by split.
Qed.

(** ** Period queries of the full-schema store *)

Lemma visitCount_in_period tz now period db rows d :
  V2.store_inv db →
  V2.getDomainsForPeriod tz now period V2.read_ok db = Resolved rows →
  Content.visitCount_in d rows =
    if bool_decide (d ∈ Object_prototype_members) then 0
    else Z.of_nat (length (V2.visits_since (V2.startDate tz now period) d
                             (V2.visits db))).
Proof.
  intros Hinv Hrows.
  destruct (getDomainsForPeriod_rows tz now period db) as (rows' & Hrows' & Hr).
  assert (rows' = rows) as -> by congruence.
  unfold Content.visitCount_in.
  pose proof (find_row_domain d rows) as Hfind.
  destruct (List.find _ rows) as [r|].
  - destruct Hfind as [Hin <-].
    apply Hr in Hin as (k & a & _ & Hmem & _ & -> & _ & -> & _).
    by rewrite bool_decide_eq_false_2.
  - case_bool_decide as Hmem; [done|].
    destruct (period_rows_domain tz now period db d Hinv)
      as (rows' & Hrows'' & Hiff).
    assert (rows' = rows) as -> by congruence.
    destruct (V2.visits_since _ d _) as [|v l] eqn:Hl; [done|].
    destruct (proj2 Hiff ltac:(done)) as (r & Hin & Hd).
    by apply Hfind in Hin.
Qed.

Lemma visits_since_mono start1 start2 d rows :
  start1 <= start2 →
  (length (V2.visits_since start2 d rows)
   <= length (V2.visits_since start1 d rows))%nat.
Proof.
  intros Hle. unfold V2.visits_since.
  induction (V2.visits_of d rows) as [|v l IH]; [done|].
  cbn. repeat case_bool_decide; cbn; lia.
Qed.

Lemma startDate_order tz now :
  30 * msPerDay <= now →
  V2.startDate tz now "all" <= V2.startDate tz now "month"
  ∧ V2.startDate tz now "month" <= V2.startDate tz now "week"
  ∧ V2.startDate tz now "week" <= V2.startDate tz now "today".
Proof.
  intros Hnow.
  change (V2.startDate tz now "all") with 0.
  change (V2.startDate tz now "month") with (now - 30 * 24 * 60 * 60 * 1000).
  change (V2.startDate tz now "week") with (now - 7 * 24 * 60 * 60 * 1000).
  change (V2.startDate tz now "today") with (localMidnight tz now).
  pose proof (localMidnight_bounds tz now) as Hb.
  unfold msPerDay in *. lia.
Qed.

(** X3. On the full-schema store, once 30 days have passed since the epoch,
    the count a consumer reads for a domain out of the period query's answer
    grows with the period: today's is at most the week's, which is at most
    the month's, which is at most the all-time one. *)
Theorem period_counts_monotone (tz now : Z) (db : V2.DB) (d : string) :
  V2.reachable db →
  30 * msPerDay <= now →
  ∃ rt rw rm ra,
    V2.getDomainsForPeriod tz now "today" V2.read_ok db = Resolved rt
    ∧ V2.getDomainsForPeriod tz now "week" V2.read_ok db = Resolved rw
    ∧ V2.getDomainsForPeriod tz now "month" V2.read_ok db = Resolved rm
    ∧ V2.getDomainsForPeriod tz now "all" V2.read_ok db = Resolved ra
    ∧ Content.visitCount_in d rt <= Content.visitCount_in d rw
    ∧ Content.visitCount_in d rw <= Content.visitCount_in d rm
    ∧ Content.visitCount_in d rm <= Content.visitCount_in d ra.
Proof.
  intros Hinv%V2_reachable_inv Hnow.
  destruct (startDate_order tz now Hnow) as (Ham & Hmw & Hwt).
  eexists _, _, _, _. repeat (split; [reflexivity|]).
  rewrite !(visitCount_in_period tz now _ db _ d Hinv eq_refl).
  case_bool_decide; [lia|].
  pose proof (visits_since_mono _ _ d (V2.visits db) Ham).
  pose proof (visits_since_mono _ _ d (V2.visits db) Hmw).
  pose proof (visits_since_mono _ _ d (V2.visits db) Hwt).
  lia.
Qed.

Lemma period_counts_monotone_witness :
  let db := V2.run [V2.mkCall "a.com" 1000 V2.io_ok;
                    V2.mkCall "a.com" 2592000000 V2.io_ok;
                    V2.mkCall "a.com" 2600000000 V2.io_ok] V2.empty in
  V2.reachable db
  ∧ ∃ rt rw rm ra,
      V2.getDomainsForPeriod 0 2600000000 "today" V2.read_ok db = Resolved rt
      ∧ V2.getDomainsForPeriod 0 2600000000 "week" V2.read_ok db = Resolved rw
      ∧ V2.getDomainsForPeriod 0 2600000000 "month" V2.read_ok db = Resolved rm
      ∧ V2.getDomainsForPeriod 0 2600000000 "all" V2.read_ok db = Resolved ra
      ∧ Content.visitCount_in "a.com" rt <= Content.visitCount_in "a.com" rw
      ∧ Content.visitCount_in "a.com" rw <= Content.visitCount_in "a.com" rm
      ∧ Content.visitCount_in "a.com" rm <= Content.visitCount_in "a.com" ra.
Proof.
  intros db.
  assert (V2.reachable db) as Hreach.
  { apply (V2.reach_add "a.com" 2600000000 V2.io_ok).
    apply (V2.reach_add "a.com" 2592000000 V2.io_ok).
    apply (V2.reach_add "a.com" 1000 V2.io_ok). apply V2.reach_empty. }
  split; [exact Hreach|].
  apply (period_counts_monotone 0 2600000000 db "a.com" Hreach).
  unfold msPerDay. lia.
Defined.







(** ** What the writes keep *)

Lemma step_visits_prefix db c :
  V2.visits db `prefix_of` V2.visits (V2.step db c)
  ∧ V2.keygen db <= V2.keygen (V2.step db c).
Proof.
  unfold V2.step. destruct (io_ok_or_failed (V2.call_io c)) as [-> | Hf].
  - rewrite addOrUpdateDomain_ok.
    cbn [V2.add_visit V2.put_domain V2.visits V2.keygen].
    split; [by eexists|lia].
  - rewrite addOrUpdateDomain_failed by done. split; [done|lia].
Qed.

Lemma run_visits_prefix cs db :
  V2.visits db `prefix_of` V2.visits (V2.run cs db)
  ∧ V2.keygen db <= V2.keygen (V2.run cs db).
Proof.
  revert db. induction cs as [|c cs IH]; intros db; [split; [done|cbn; lia]|].
  change (V2.run (c :: cs) db) with (V2.run cs (V2.step db c)).
  destruct (IH (V2.step db c)) as [Hp Hk].
  destruct (step_visits_prefix db c) as [Hp' Hk'].
  split; [by etrans|lia].
Qed.

Lemma accepted_for_length d cs :
  (length (V2.accepted_for d cs) <= length cs)%nat.
Proof.
  unfold V2.accepted_for. rewrite length_fmap. apply length_filter.
Qed.

(** X5. No sequence of [addOrUpdateDomain] calls on the full-schema store,
    whatever the outcomes of their requests, removes or rewrites a visit
    row (the old visit log is a prefix of the new one), removes an
    aggregate, changes an aggregate's [firstVisit] or lowers its
    [visitCount]; the count of a domain grows by at most the number of
    calls. *)
Theorem writes_keep_history (cs : list V2.call) (db : V2.DB) :
  V2.visits db `prefix_of` V2.visits (V2.run cs db)
  ∧ V2.keygen db <= V2.keygen (V2.run cs db)
  ∧ ∀ d a, V2.domains db !! d = Some a →
      ∃ a', V2.domains (V2.run cs db) !! d = Some a'
            ∧ firstVisit a' = firstVisit a
            ∧ visitCount a <= visitCount a'
              <= visitCount a + Z.of_nat (length cs).
Proof.
  destruct (run_visits_prefix cs db) as [Hp Hk].
  split; [done|]. split; [done|]. intros d a Hd.
  rewrite V2_run_lookup, Hd, record_all_Some.
  pose proof (accepted_for_length d cs) as Hlen.
  eexists. split; [reflexivity|].
  destruct (V2.accepted_for d cs) as [|t ts]; cbn [firstVisit visitCount].
  - split; [done|]. lia.
  - split; [done|]. cbn [length] in *. lia.
Qed.

Lemma StronglySorted_snoc {A} (R : A → A → Prop) l x :
  StronglySorted R l → Forall (λ y, R y x) l → StronglySorted R (l ++ [x]).
Proof.
  induction 1 as [|y l Hs IH Hy]; intros Hx; cbn; [repeat constructor|].
  apply Forall_cons in Hx as [Hyx Hx]. constructor; [by apply IH|].
  apply Forall_app. split; [done|]. by apply Forall_singleton.
Qed.

Lemma reachable_ids_bound db :
  V2.reachable db →
  StronglySorted (λ v w, id v < id w) (V2.visits db)
  ∧ Forall (λ v, 1 <= id v < V2.keygen db) (V2.visits db)
  ∧ 1 <= V2.keygen db.
Proof.
  induction 1 as [|old Hold|d now o db _ IH|[[] []] db _ IH]; try done.
  - cbn. repeat split; try constructor; lia.
  - cbn. repeat split; try constructor; lia.
  - destruct (io_ok_or_failed o) as [-> | Hf];
      [|by rewrite addOrUpdateDomain_failed].
    rewrite addOrUpdateDomain_ok.
    cbn [V2.add_visit V2.put_domain V2.visits V2.keygen].
    destruct IH as (Hs & Hb & Hk). split; [|split; [|lia]].
    + apply StronglySorted_snoc; [done|].
      eapply Forall_impl; [exact Hb|]. cbn. intros; lia.
    + apply Forall_app. split.
      * eapply Forall_impl; [exact Hb|]. cbn. intros; lia.
      * apply Forall_singleton. cbn. lia.
  - cbn. destruct IH as (_ & _ & Hk). repeat split; try constructor; lia.
Qed.

(** X6. In every state the full-schema store goes through, the keys of the
    visit rows are at least 1, below the key generator, and strictly
    increasing along the log, so no two rows share an [id]; since
    [clearAllDomains] leaves the key generator where it is, a row recorded
    after a clear never takes the key of a row recorded before it. *)
Theorem visit_ids_increase (db : V2.DB) :
  V2.reachable db →
  StronglySorted (λ v w, id v < id w) (V2.visits db)
  ∧ Forall (λ v, 1 <= id v < V2.keygen db) (V2.visits db)
  ∧ NoDup (id <$> V2.visits db)
  ∧ ∀ o d now io,
      V2.keygen db <= V2.keygen (V2.clearAllDomains o db).2
      ∧ Forall (λ v, V2.keygen db <= id v)
          (V2.visits (V2.addOrUpdateDomain d now io
                        (V2.clearAllDomains (V2.mkClearIO onsuccess onsuccess)
                           db).2).2).
Proof.
  intros Hreach. destruct (reachable_ids_bound db Hreach) as (Hs & Hb & Hk).
  split; [done|]. split; [done|]. split.
  - clear Hb. induction Hs as [|v l Hs IH Hv]; [constructor|].
    cbn. constructor; [|done].
    intros (w & Hid & Hw)%list_elem_of_fmap.
    apply (proj1 (Forall_forall _ _) Hv) in Hw. lia.
  - intros o d now io. split.
    + destruct o as [[] []]; cbn; lia.
    + destruct (io_ok_or_failed io) as [-> | Hf].
      * rewrite addOrUpdateDomain_ok. cbn. apply Forall_singleton. cbn. lia.
      * rewrite addOrUpdateDomain_failed by done. cbn. constructor.
Qed.

Lemma visit_ids_increase_witness :
  let db := V2.run [V2.mkCall "a.com" 10 V2.io_ok;
                    V2.mkCall "b.org" 20 V2.io_ok] V2.empty in
  V2.reachable db ∧ id <$> V2.visits db = [1; 2]
  ∧ NoDup (id <$> V2.visits db).
Proof.
  intros db.
  assert (V2.reachable db) as Hreach.
  { apply (V2.reach_add "b.org" 20 V2.io_ok).
    apply (V2.reach_add "a.com" 10 V2.io_ok). apply V2.reach_empty. }
  split; [exact Hreach|]. split; [reflexivity|].
  exact (proj1 (proj2 (proj2 (visit_ids_increase db Hreach)))).
Defined.

(** X7. How the promise of [addOrUpdateDomain] relates to the store.  On
    the aggregate-only store a resolved promise carries the aggregate now
    stored for the domain, every other domain is as before, and a rejected
    promise (get or put failed, with its message) leaves the store as it
    was.  On the full-schema store the same holds when the visit row is
    added; when the add fails the promise resolves all the same, with an
    aggregate that is not in the store, and the store is as it was. *)
Theorem addOrUpdateDomain_settlement (d : string) (now : Z)
    (o1 : V1.io) (db1 : V1.DB) (o2 : V2.io) (db2 : V2.DB) :
  match V1.addOrUpdateDomain d now o1 db1 with
  | (Resolved a, db') =>
      a = domainData (V1.domains db1 !! d) d now
      ∧ V1.domains db' !! d = Some a
      ∧ ∀ k, k ≠ d → V1.domains db' !! k = V1.domains db1 !! k
  | (Rejected e, db') =>
      db' = db1
      ∧ ((V1.get_outcome o1 = onerror ∧ e = "Failed to get domain")
         ∨ (V1.put_outcome o1 = onerror ∧ e = "Failed to save domain"))
  end
  ∧ match V2.addOrUpdateDomain d now o2 db2 with
    | (Resolved a, db') =>
        a = domainData (V2.domains db2 !! d) d now
        ∧ match V2.add_outcome o2 with
          | onsuccess =>
              V2.domains db' !! d = Some a
              ∧ (∀ k, k ≠ d → V2.domains db' !! k = V2.domains db2 !! k)
              ∧ V2.visits db' =
                  V2.visits db2 ++ [mkVisit (V2.keygen db2) d now]
          | onerror => db' = db2 ∧ V2.domains db' !! d ≠ Some a
          end
    | (Rejected e, db') =>
        db' = db2
        ∧ ((V2.get_outcome o2 = onerror ∧ e = "Failed to get domain")
           ∨ (V2.put_outcome o2 = onerror ∧ e = "Failed to save domain"))
    end.
Proof.
  split.
  - destruct o1 as [[] []]; cbn; rewrite ?domainData_domain; auto.
    split; [done|]. split; [by rewrite lookup_insert_eq|].
    intros k Hk. by rewrite lookup_insert_ne.
  - destruct o2 as [[] [] []]; cbn; rewrite ?domainData_domain; auto.
    + split; [done|]. split; [by rewrite lookup_insert_eq|]. split; [|done].
      intros k Hk. by rewrite lookup_insert_ne.
    + split; [done|]. split; [done|].
      destruct (V2.domains db2 !! d) as [a|]; [|done].
      cbn. intros [= Ha]. destruct a as [ad af al ac]. cbn in Ha.
      injection Ha as _ _ Hc. lia.
Qed.

(** ** The listeners of the background script *)

Section ListenerFacts.

Variable URL_parse : string → option Navigation.URL.

Lemma listener_paused e now o db :
  Navigation.listener URL_parse false e now o db = db.
Proof. reflexivity. Qed.

(** X8. While tracking is paused no navigation event changes the store,
    whatever the events and the outcomes would be; a [trackDomain] message
    is not held back by the flag: with the database open, or opened by the
    call, it records the visit as when tracking is on, and leaves the flag
    as it is.  [toggleTracking] sets the flag and leaves the store as it
    is. *)
Theorem pause_stops_navigation_only (tz : Z) (s : Background.state)
    (events : list (Navigation.details * Z * V2.io)) :
  Background.trackingEnabled s = false →
  foldl (λ db '(e, now, o),
           Navigation.listener URL_parse (Background.trackingEnabled s)
             e now o db)
        (Background.db s) events = Background.db s
  ∧ (∀ now d c o,
       Background.init c = Resolved tt →
       Background.track_io o = V2.io_ok →
       let s' :=
         (Background.onMessage tz now (Background.TrackDomain d) c o s).2 in
       Background.trackingEnabled s' = false
       ∧ V2.domains (Background.db s') !! d =
           Some (domainData (V2.domains (Background.db s) !! d) d now)
       ∧ V2.visits (Background.db s') =
           V2.visits (Background.db s)
           ++ [mkVisit (V2.keygen (Background.db s)) d now])
  ∧ (∀ now enabled c o,
       (Background.onMessage tz now (Background.ToggleTracking enabled) c o s).2
       = Background.mkState enabled (Background.db s)).
Proof.
  intros Hoff. rewrite Hoff. split; [|split].
  - induction events as [|[[e now] o] events IH]; [done|].
    cbn [foldl]. by rewrite listener_paused.
  - intros now d c o Hc Ho. cbn. rewrite Hc. unfold V2.addOrUpdateDomain.
    rewrite Ho. cbn. rewrite domainData_domain, lookup_insert_eq. by rewrite Hoff.
  - done.
Qed.

(** X9. A navigation event the listener accepts, when the three requests of
    the write succeed, is recorded exactly once: one visit row for the
    URL's host name with the clock reading is appended, the aggregate of
    that host name is created with count 1 or has its count raised by 1 and
    its [lastVisit] set to the reading, and the aggregates of all other
    domains are as before. *)
Theorem accepted_navigation_recorded_once (e : Navigation.details) (h : string)
    (now : Z) (db : V2.DB) :
  Navigation.onCommitted URL_parse true e = Some h →
  let db' := Navigation.listener URL_parse true e now V2.io_ok db in
  V2.visits db' = V2.visits db ++ [mkVisit (V2.keygen db) h now]
  ∧ (∃ a, V2.domains db' !! h = Some a
          ∧ domain a = h ∧ lastVisit a = now
          ∧ visitCount a =
              match V2.domains db !! h with
              | Some old => visitCount old + 1
              | None => 1
              end
          ∧ firstVisit a =
              match V2.domains db !! h with
              | Some old => firstVisit old
              | None => now
              end)
  ∧ ∀ k, k ≠ h → V2.domains db' !! k = V2.domains db !! k.
Proof.
  intros Hacc db'. subst db'. unfold Navigation.listener. rewrite Hacc.
  rewrite addOrUpdateDomain_ok.
  cbn [V2.add_visit V2.put_domain V2.domains V2.visits V2.keygen].
  rewrite domainData_domain. split; [done|]. split.
  - rewrite lookup_insert_eq. eexists. split; [done|].
    by destruct (V2.domains db !! h).
  - intros k Hk. by rewrite lookup_insert_ne.
Qed.

End ListenerFacts.

Lemma pause_stops_navigation_only_witness :
  let s := Background.mkState false V2.empty in
  V2.domains
    (Background.db
       (Background.onMessage 0 10 (Background.TrackDomain "a.com")
          (Background.Opening onsuccess)
          (Background.mkMsgIO V2.io_ok V2.read_ok
             (V2.mkClearIO onsuccess onsuccess)) s).2) !! "a.com"
  = Some (mkAggregate "a.com" 10 10 1).
Proof.
  intros s.
  destruct (pause_stops_navigation_only (λ _, None) 0 s [] eq_refl)
    as (_ & Htrack & _).
  exact (proj1 (proj2 (Htrack 10 "a.com" (Background.Opening onsuccess)
           (Background.mkMsgIO V2.io_ok V2.read_ok
              (V2.mkClearIO onsuccess onsuccess)) eq_refl eq_refl))).
Defined.

Lemma accepted_navigation_recorded_once_witness :
  let parse := λ s : string,
    if decide (s = "https://example.com/")
    then Some (Navigation.mkURL "https:" "example.com") else None in
  let e := Navigation.mkDetails "https://example.com/" 0 "typed" None 7 in
  V2.visits (Navigation.listener parse true e 10 V2.io_ok V2.empty)
  = [mkVisit 1 "example.com" 10].
Proof.
  intros parse e.
  exact (proj1 (accepted_navigation_recorded_once parse e "example.com" 10
                  V2.empty eq_refl)).
Defined.

(** X10. The message listener never answers with an error and a changed
    state: an error reply carries the message of the request that failed
    (the open request of [init] or one of the six requests of the store
    methods), and the state is the one before the message.  When [this.db]
    is null and the open request fails, each of [trackDomain],
    [getDomains] and [clearDomains] is answered with 'Failed to open
    database', whatever its own requests would do; [test] and
    [toggleTracking] do not open the database.  A [clearDomains] that
    succeeds is followed, for every period and order asked, by the empty
    list. *)
Theorem onMessage_errors (tz now : Z) (m : Background.message)
    (c : Background.connection) (o : Background.msg_io)
    (s : Background.state) :
  match Background.onMessage tz now m c o s with
  | (Background.ReplyError e, s') =>
      s' = s
      ∧ e ∈ ["Failed to open database";
             "Failed to get domain"; "Failed to save domain";
             "Failed to fetch domains"; "Failed to fetch visits";
             "Failed to clear domains"; "Failed to clear visits"]
  | (Background.ReplySuccess, s') =>
      m = Background.ClearDomains →
      ∀ tz' now' req c',
        Background.init c' = Resolved tt →
        (Background.onMessage tz' now' (Background.GetDomains req) c'
           (Background.mkMsgIO V2.io_ok V2.read_ok (Background.clear_io o))
           s').1 = Background.ReplyDomains []
  | _ => True
  end
  ∧ (∀ d req,
       Background.onMessage tz now (Background.TrackDomain d)
         (Background.Opening onerror) o s
       = (Background.ReplyError "Failed to open database", s)
       ∧ Background.onMessage tz now (Background.GetDomains req)
           (Background.Opening onerror) o s
         = (Background.ReplyError "Failed to open database", s)
       ∧ Background.onMessage tz now Background.ClearDomains
           (Background.Opening onerror) o s
         = (Background.ReplyError "Failed to open database", s))
  ∧ (∀ enabled,
       Background.onMessage tz now Background.Test c o s
       = (Background.ReplyTest, s)
       ∧ Background.onMessage tz now (Background.ToggleTracking enabled) c o s
         = (Background.ReplySuccess,
            Background.mkState enabled (Background.db s))).
Proof.
  split; [|by split].
  assert (∀ e : string,
            Background.init c = Rejected e →
            e ∈ ["Failed to open database";
                 "Failed to get domain"; "Failed to save domain";
                 "Failed to fetch domains"; "Failed to fetch visits";
                 "Failed to clear domains"; "Failed to clear visits"])
    as Hopen.
  { intros e He. destruct c as [|[]]; cbn in He; try discriminate.
    injection He as <-. apply list_elem_of_here. }
  destruct m as [|enabled|d|req| |]; cbn; try done.
  - destruct (Background.init c) as [[]|e] eqn:Hc;
      [|split; [done|]; by apply Hopen].
    destruct s as [t db]. destruct (Background.track_io o) as [[] [] []]; cbn;
      try done; (split; [done|]);
      repeat first [apply list_elem_of_here | apply list_elem_of_further].
  - destruct (Background.init c) as [[]|e] eqn:Hc;
      [|split; [done|]; by apply Hopen].
    unfold V2.getDomains, V2.getDomainsForPeriod, V2.getAllDomains.
    destruct (Background.read_io o) as [[] []]; cbn; try done;
      (split; [done|]);
      repeat first [apply list_elem_of_here | apply list_elem_of_further].
  - destruct (Background.init c) as [[]|e] eqn:Hc;
      [|split; [done|]; by apply Hopen].
    destruct s as [t db]. destruct (Background.clear_io o) as [[] []]; cbn.
    + intros _ tz' now' [p sb] c' ->.
      unfold V2.getDomains, V2.getDomainsForPeriod, V2.getAllDomains.
      cbn [V2.read_ok V2.domains_read V2.visits_read V2.domains V2.visits
           Background.read_io Background.db fst].
      rewrite domains_cursor_empty. cbn. by repeat case_decide.
    + split; [done|].
      repeat first [apply list_elem_of_here | apply list_elem_of_further].
    + split; [done|].
      repeat first [apply list_elem_of_here | apply list_elem_of_further].
    + split; [done|].
      repeat first [apply list_elem_of_here | apply list_elem_of_further].
Qed.

(** ** The badge *)

Lemma find_aggregate sortBy (store : gmap string DomainAggregate) d :
  (∀ k a, store !! k = Some a → domain a = k) →
  List.find (λ a, bool_decide (domain a = d)) (domains_cursor sortBy store)
  = store !! d.
Proof.
  intros Hkey.
  destruct (List.find _ _) as [a|] eqn:Hfind.
  - apply List.find_some in Hfind as [Hin Hd].
    apply bool_decide_eq_true in Hd.
    apply list_elem_of_In, domains_cursor_elem in Hin as [k Hk].
    pose proof (Hkey _ _ Hk). by subst.
  - destruct (store !! d) as [a|] eqn:Hd; [|done].
    assert (a ∈ domains_cursor sortBy store) as Hin
      by (apply domains_cursor_elem; by exists d).
    apply list_elem_of_In in Hin.
    apply (List.find_none _ _ Hfind) in Hin.
    apply bool_decide_eq_false in Hin. by specialize (Hkey _ _ Hd).
Qed.

Lemma find_periodVisitCount tz now period db rows d :
  V2.getDomainsForPeriod tz now period V2.read_ok db = Resolved rows →
  match List.find (λ r, bool_decide (V2.row_domain r = d)) rows with
  | Some r => V2.row_periodVisitCount r
  | None => 0
  end = Content.visitCount_in d rows.
Proof.
  intros Hrows. unfold Content.visitCount_in.
  destruct (getDomainsForPeriod_rows tz now period db) as (rows' & Hrows' & Hr).
  assert (rows' = rows) as -> by congruence.
  pose proof (find_row_domain d rows) as Hfind.
  destruct (List.find _ rows) as [r|]; [|done].
  destruct Hfind as [Hin _].
  by apply Hr in Hin as (k & a & _ & _ & _ & _ & _ & _ & -> & _).
Qed.

Section BadgeFacts.

Variable URL_parse : string → option Navigation.URL.

(** X11. With tracking on, when [updateBadge] of the full-schema script
    gets as far as the store (a tab is found, its URL begins with "http"
    and parses) and the reads succeed, the badge of that tab shows the
    number of visit rows of the URL's host name since local midnight, and
    no text when there is none; the tooltip carries the same number.  A
    host name that is a member name of [Object.prototype] has no record in
    the period query's answer, and the badge shows no text for it whatever
    the visit rows. *)
Theorem badge_shows_today_count (tz now : Z) (tabId : option Z)
    (env : Background.tabs) (db : V2.DB) (i : Z) (d : string) :
  V2.reachable db →
  Background.badge_domain URL_parse true tabId env = inr (i, d) →
  Background.updateBadge URL_parse tz now true tabId env V2.read_ok db =
    Background.count_badge d
      (if bool_decide (d ∈ Object_prototype_members) then 0
       else Z.of_nat (length (V2.visits_since (localMidnight tz now) d
                                (V2.visits db)))) i.
Proof.
  intros Hinv%V2_reachable_inv Hd. unfold Background.updateBadge. rewrite Hd.
  destruct (getDomainsForPeriod_rows tz now "today" db) as (rows & Hrows & _).
  rewrite Hrows, (find_periodVisitCount tz now "today" db rows d Hrows).
  by rewrite (visitCount_in_period tz now "today" db rows d Hinv Hrows).
Qed.

(** X12. With tracking on, when [updateBadge] of the aggregate-only script
    gets as far as the store and the read succeeds, the badge of the tab
    shows the lifetime [visitCount] of the host name's aggregate when its
    [lastVisit] is less than 24 hours before now, and no text when it is
    older, when the count is not positive or when there is no aggregate. *)
Theorem badge_V1_shows_lifetime_count (now : Z) (tabId : option Z)
    (env : Background.tabs) (db : V1.DB) (i : Z) (d : string) :
  V1.reachable db →
  Background.badge_domain URL_parse true tabId env = inr (i, d) →
  Background.updateBadge_V1 URL_parse now true tabId env onsuccess db =
    Background.count_badge d
      match V1.domains db !! d with
      | Some a => if decide (now - lastVisit a < msPerDay) then visitCount a
                  else 0
      | None => 0
      end i.
Proof.
  intros Hreach Hd. pose proof (V1_reachable_keyed db Hreach) as Hkey.
  unfold Background.updateBadge_V1. rewrite Hd. cbn [V1.getAllDomains].
  by rewrite (find_aggregate "lastVisit" (V1.domains db) d Hkey).
Qed.

Lemma count_badge_number d n i c m :
  c ∈ Background.count_badge d n i → Background.badge_number c = Some m →
  0 < m.
Proof.
  unfold Background.count_badge. intros Hc Hm.
  repeat (apply elem_of_cons in Hc as [-> | Hc]); cbn in Hm; try done.
  - case_decide; cbn in Hm; [|done]. by injection Hm as <-.
  - by apply elem_of_nil in Hc.
Qed.

Lemma badge_domain_number t tabId env calls c m :
  Background.badge_domain URL_parse t tabId env = inl calls →
  c ∈ calls → Background.badge_number c = Some m → False.
Proof.
  unfold Background.badge_domain. intros Hcalls Hc Hm.
  repeat match type of Hcalls with
         | (if ?b then _ else _) = _ => destruct b
         | match ?x with _ => _ end = _ => destruct x
         end;
    try discriminate; injection Hcalls as <-;
    repeat (apply elem_of_cons in Hc as [-> | Hc]); cbn in Hm;
    try done; by apply elem_of_nil in Hc.
Qed.

(** X13. Whatever the tab, the store and the outcomes: while tracking is
    paused, [updateBadge] of either script sets the text 'OFF', the red
    colour and the paused title for all tabs and nothing else; and no call
    it ever makes puts a number on the badge that is not positive. *)
Theorem badge_never_shows_zero (tz now : Z) (trackingEnabled : bool)
    (tabId : option Z) (env : Background.tabs)
    (o2 : V2.read_io) (db2 : V2.DB) (o1 : outcome) (db1 : V1.DB) :
  (trackingEnabled = false →
   Background.updateBadge URL_parse tz now trackingEnabled tabId env o2 db2
   = Background.paused_badge
   ∧ Background.updateBadge_V1 URL_parse now trackingEnabled tabId env o1 db1
     = Background.paused_badge)
  ∧ (∀ c m,
       c ∈ Background.updateBadge URL_parse tz now trackingEnabled tabId env
             o2 db2
       ∨ c ∈ Background.updateBadge_V1 URL_parse now trackingEnabled tabId env
               o1 db1 →
       Background.badge_number c = Some m → 0 < m).
Proof.
  split; [by intros ->|].
  intros c m Hc Hm.
  unfold Background.updateBadge, Background.updateBadge_V1 in Hc.
  destruct (Background.badge_domain URL_parse trackingEnabled tabId env)
    as [calls|[i d]] eqn:Hdom.
  - exfalso. destruct Hc as [Hc|Hc];
      by eapply badge_domain_number.
  - destruct Hc as [Hc|Hc].
    + destruct (V2.getDomainsForPeriod _ _ _ _ _);
        [by eapply count_badge_number|by apply elem_of_nil in Hc].
    + destruct (V1.getAllDomains _ _ _);
        [by eapply count_badge_number|by apply elem_of_nil in Hc].
Qed.

End BadgeFacts.

Lemma badge_shows_today_count_witness :
  let parse := λ s : string,
    if decide (s = "https://a.com/x")
    then Some (Navigation.mkURL "https:" "a.com") else None in
  let env := Background.mkTabs (Some [Background.mkTab 7 (Some "https://a.com/x")])
               (λ i, Some (Background.mkTab i (Some "https://a.com/x"))) in
  let db := V2.run [V2.mkCall "a.com" 10 V2.io_ok;
                    V2.mkCall "a.com" 86400010 V2.io_ok;
                    V2.mkCall "a.com" 86400020 V2.io_ok] V2.empty in
  Background.updateBadge parse 0 86400030 true None env V2.read_ok db
  = Background.count_badge "a.com" 2 7.
Proof.
  intros parse env db.
  assert (V2.reachable db) as Hreach.
  { apply (V2.reach_add "a.com" 86400020 V2.io_ok).
    apply (V2.reach_add "a.com" 86400010 V2.io_ok).
    apply (V2.reach_add "a.com" 10 V2.io_ok). apply V2.reach_empty. }
  exact (badge_shows_today_count parse 0 86400030 None env db 7 "a.com"
           Hreach eq_refl).
Defined.

Lemma badge_V1_shows_lifetime_count_witness :
  let parse := λ s : string,
    if decide (s = "https://a.com/x")
    then Some (Navigation.mkURL "https:" "a.com") else None in
  let env := Background.mkTabs None
               (λ i, Some (Background.mkTab i (Some "https://a.com/x"))) in
  let db := V1.run [V1.mkCall "a.com" 10 V1.io_ok;
                    V1.mkCall "a.com" 86400010 V1.io_ok] V1.empty in
  Background.updateBadge_V1 parse 86400030 true (Some 7) env onsuccess db
  = Background.count_badge "a.com" 2 7.
Proof.
  intros parse env db.
  assert (V1.reachable db) as Hreach.
  { apply (V1.reach_add "a.com" 86400010 V1.io_ok).
    apply (V1.reach_add "a.com" 10 V1.io_ok). apply V1.reach_empty. }
  exact (badge_V1_shows_lifetime_count parse 86400030 (Some 7) env db 7 "a.com"
           Hreach eq_refl).
Defined.

(** ** Quota checks that do nothing, and the overlay that stays *)

(** X14. A quota check changes nothing on the page, whatever the visit
    count and whatever the page has shown, when quota checking is off, when
    the domain has no entry in [siteQuotasCache], or when its entry is not
    positive.  With hard blocking off, [maybeHardBlock] changes nothing
    whatever the count and the quota. *)
Theorem no_quota_no_enforcement (s : Content.settings) (d : string)
    (visitCount : Z) (p : Content.page) :
  (Content.quotaEnabled s = false
   ∨ Content.siteQuotasCache s !! d = None
   ∨ (∃ n, Content.siteQuotasCache s !! d = Some n ∧ n <= 0) →
   Content.maybeShowQuotaMessage s d visitCount p = p
   ∧ Content.maybeHardBlock s d visitCount p = p
   ∧ Content.handle p (Content.QuotaCheck s d visitCount) = p)
  ∧ (Content.hardBlockEnabled s = false →
     Content.maybeHardBlock s d visitCount p = p).
Proof.
  split.
  - intros Hoff.
    assert (Content.quotaEnabled s = false ∨ Content.maxPerDay_of s d <= 0)
      as Hcase.
    { destruct Hoff as [?|[Hnone|(n & Hn & Hle)]]; [by left|right..];
        unfold Content.maxPerDay_of; rewrite ?Hnone, ?Hn; cbn; lia. }
    assert (∀ q, Content.maybeShowQuotaMessage s d visitCount q = q) as Hshow.
    { intros q. rewrite maybeShowQuotaMessage_spec.
      destruct Hcase as [-> | Hle]; [done|].
      destruct (Content.quotaEnabled s); [|done].
      by rewrite decide_False by lia. }
    assert (∀ q, Content.maybeHardBlock s d visitCount q = q) as Hhard.
    { intros q. rewrite maybeHardBlock_spec.
      destruct Hcase as [-> | Hle]; [done|].
      destruct (Content.quotaEnabled s && Content.hardBlockEnabled s); [|done].
      by rewrite decide_False by lia. }
    cbn [Content.handle]. by rewrite !Hshow, !Hhard.
  - intros Hoff. rewrite maybeHardBlock_spec, Hoff.
    by destruct (Content.quotaEnabled s).
Qed.

Lemma no_quota_no_enforcement_witness :
  Content.handle Content.fresh
    (Content.QuotaCheck (Content.mkSettings true true {["a.com" := 5]})
       "b.org" 1000) = Content.fresh.
Proof.
  apply (proj1 (no_quota_no_enforcement
                  (Content.mkSettings true true {["a.com" := 5]})
                  "b.org" 1000 Content.fresh)).
  right. left. reflexivity.
Defined.

Lemma blocked_with_handle o p e :
  blocked_with o p → blocked_with o (Content.handle p e).
Proof.
  intros (Hb & Ho & Hov & Hin & Hc).
  assert (∀ t, blocked_with o (Content.showQuotaExceededMessage t p)) as Hshow.
  { intros t. unfold Content.showQuotaExceededMessage.
    destruct (Content.quotaShown p); [done|].
    repeat split; cbn; try done.
    - apply elem_of_app. by left.
    - rewrite List.filter_app. cbn. by rewrite Hc. }
  assert (∀ q d v m, blocked_with o q →
            Content.showHardBlockOverlay d v m q = q) as Hhard.
  { intros q d v m (Hq & _). unfold Content.showHardBlockOverlay.
    by rewrite Hq. }
  destruct e as [t|d v m|s d v| |keep]; cbn [Content.handle].
  - apply Hshow.
  - by rewrite Hhard.
  - rewrite maybeHardBlock_spec, maybeShowQuotaMessage_spec.
    destruct (Content.quotaEnabled s), (Content.hardBlockEnabled s);
      cbn [andb]; repeat case_decide; rewrite ?Hhard; try done;
      try apply Hshow.
  - repeat split; cbn; try done.
    apply list_elem_of_In, List.filter_In. rewrite <- list_elem_of_In.
    split; [done|]. by destruct o.
  - unfold Content.observer. cbn [Content.with_body Content.overlay
      Content.body]. rewrite Ho.
    case_bool_decide as Hkept; repeat split; cbn; try done.
    apply elem_of_app. right. by apply list_elem_of_singleton.
Qed.

(** X15. The hard-block overlay cannot be taken off the page and is never
    replaced: once [showHardBlockOverlay] has run on a page instance that
    was not blocked, then whatever follows (further soft or hard
    invocations with other counts, quota checks, timers, the page removing
    elements) the overlay under [document.body] is the one created then,
    with the domain and the counts of that first invocation, and it is the
    only overlay ever created. *)
Theorem overlay_stays (before after : list Content.event)
    (d : string) (visits max : Z) :
  let p0 := foldl Content.handle Content.fresh before in
  Content.hardBlocked p0 = false →
  let p := foldl Content.handle
             (Content.handle p0 (Content.HardBlock d visits max)) after in
  Content.HardBlockOverlay d visits max ∈ Content.body p
  ∧ Content.overlay p = Some (Content.HardBlockOverlay d visits max)
  ∧ List.filter Content.is_overlay (Content.created p)
    = [Content.HardBlockOverlay d visits max].
Proof.
  intros p0 Hfree p.
  assert (blocked_with (Content.HardBlockOverlay d visits max)
            (Content.handle p0 (Content.HardBlock d visits max))) as Hb0.
  { destruct (run_inv before _ fresh_inv) as [_ Ho _ _ _ _ _].
    fold p0 in Ho. rewrite Hfree in Ho.
    assert (List.filter Content.is_overlay (Content.created p0) = []) as Hnil
      by (by apply length_zero_iff_nil).
    cbn [Content.handle]. unfold Content.showHardBlockOverlay. rewrite Hfree.
    repeat split; cbn; try done.
    - apply elem_of_app. right. by apply list_elem_of_singleton.
    - rewrite List.filter_app, Hnil. done. }
  assert (blocked_with (Content.HardBlockOverlay d visits max) p) as Hb.
  { subst p. revert Hb0.
    generalize (Content.handle p0 (Content.HardBlock d visits max)).
    induction after as [|e after IH]; intros q Hq; [done|].
    cbn [foldl]. by apply IH, blocked_with_handle. }
  by destruct Hb as (_ & Ho & _ & Hin & Hc).
Qed.

Lemma overlay_stays_witness :
  Content.hardBlocked
    (foldl Content.handle Content.fresh
       [Content.SoftWarning (Content.Literal "limit")]) = false
  ∧ Content.HardBlockOverlay "a.com" 6 5
    ∈ Content.body
        (foldl Content.handle
           (Content.handle
              (foldl Content.handle Content.fresh
                 [Content.SoftWarning (Content.Literal "limit")])
              (Content.HardBlock "a.com" 6 5))
           [Content.PageRemoves (λ _, false);
            Content.HardBlock "a.com" 9 5]).
Proof.
  split; [reflexivity|].
  exact (proj1 (overlay_stays
                  [Content.SoftWarning (Content.Literal "limit")]
                  [Content.PageRemoves (λ _, false);
                   Content.HardBlock "a.com" 9 5] "a.com" 6 5 eq_refl)).
Defined.

(** ** The popup's list *)

Lemma take_min_length {A} (l : list A) k :
  take (Nat.min k (length l)) l = take k l.
Proof.
  destruct (decide (k <= length l)%nat) as [Hle|Hgt].
  - by rewrite Nat.min_l.
  - rewrite Nat.min_r by lia. by rewrite !take_ge by lia.
Qed.

Lemma handleLoadMore_step {A} (v : Popup.view A) k :
  Popup.displayedDomains v = take k (Popup.domains v) →
  Popup.showMore v =
    bool_decide (length (Popup.displayedDomains v)
                 < length (Popup.domains v))%nat →
  Popup.domains (Popup.handleLoadMore v) = Popup.domains v
  ∧ Popup.displayedDomains (Popup.handleLoadMore v)
    = take (k + 5) (Popup.domains v)
  ∧ Popup.showMore (Popup.handleLoadMore v) =
      bool_decide (length (Popup.displayedDomains (Popup.handleLoadMore v))
                   < length (Popup.domains (Popup.handleLoadMore v)))%nat.
Proof.
  destruct v as [ds shown more]. cbn. intros -> ->.
  unfold Popup.LOAD_MORE_COUNT. rewrite !length_take. split; [done|]. split.
  - rewrite take_min_length.
    destruct (decide (k <= length ds)%nat).
    + by rewrite Nat.min_l by lia.
    + rewrite Nat.min_r by lia. by rewrite !take_ge by lia.
  - repeat case_bool_decide; try done; lia.
Qed.

(** X16. After [fetchDomains] and any number of clicks on "Load More", the
    popup shows the first 3 + 5 n domains of the answer, in the answer's
    order (all of them when there are fewer); the button is offered exactly
    when some domain is not shown yet, and then its label announces between
    1 and 5 more, the number the next click adds.  A failed or missing
    answer gives an empty list and no button. *)
Theorem load_more_shows_prefix {A : Type} (r : option (response A)) (n : nat) :
  let v0 := Popup.fetchDomains r in
  let v := Nat.iter n Popup.handleLoadMore v0 in
  Popup.domains v0 = match r with Some (success l) => l | _ => [] end
  ∧ Popup.domains v = Popup.domains v0
  ∧ Popup.displayedDomains v = take (3 + 5 * n) (Popup.domains v0)
  ∧ Popup.showMore v =
      bool_decide (length (Popup.displayedDomains v)
                   < length (Popup.domains v))%nat
  ∧ (Popup.showMore v = true →
     (1 <= Popup.more_label v <= 5)%nat
     ∧ length (Popup.displayedDomains (Popup.handleLoadMore v))
       = (length (Popup.displayedDomains v) + Popup.more_label v)%nat).
Proof.
  intros v0 v. split; [by destruct r as [[]|]|].
  assert (Popup.domains v = Popup.domains v0
          ∧ Popup.displayedDomains v = take (3 + 5 * n) (Popup.domains v0)
          ∧ Popup.showMore v =
              bool_decide (length (Popup.displayedDomains v)
                           < length (Popup.domains v))%nat) as (Hd & Hs & Hm).
  { subst v. induction n as [|n (Hd & Hs & Hm)].
    - cbn [Nat.iter]. split; [done|]. subst v0.
      destruct r as [[l|e]|]; cbn; try done.
      split; [done|]. unfold Popup.INITIAL_DISPLAY_COUNT.
      rewrite length_take. apply bool_decide_ext. lia.
    - change (Nat.iter (S n) Popup.handleLoadMore v0)
        with (Popup.handleLoadMore (Nat.iter n Popup.handleLoadMore v0)).
      rewrite <- Hd in Hs.
      destruct (handleLoadMore_step _ _ Hs Hm) as (Hd' & Hs' & Hm').
      split; [congruence|]. split; [|done].
      rewrite Hs', Hd. f_equal. lia. }
  split; [done|]. split; [done|]. split; [done|].
  intros Hshow. rewrite Hm in Hshow. apply bool_decide_eq_true in Hshow.
  unfold Popup.more_label, Popup.handleLoadMore, Popup.LOAD_MORE_COUNT.
  cbn [Popup.displayedDomains Popup.domains]. rewrite length_take. lia.
Qed.

(** X17. [formatDate] prints 'Just now' for a date less than a minute old
    (or in the future), the whole minutes elapsed, from 1 to 59, for a
    date less than an hour old, the whole hours elapsed, from 1 to 23, for
    a date less than a day old, and the date itself from 24 hours on. *)
Theorem formatDate_ranges (now date : Z) :
  match Popup.formatDate now date with
  | Popup.JustNow => now - date < 60000
  | Popup.MinAgo n =>
      1 <= n <= 59 ∧ 60000 * n <= now - date < 60000 * (n + 1)
  | Popup.HoursAgo n =>
      1 <= n <= 23 ∧ 3600000 * n <= now - date < 3600000 * (n + 1)
  | Popup.LocaleDate t => t = date ∧ 86400000 <= now - date
  end.
Proof.
  unfold Popup.formatDate.
  pose proof (Z.div_mod (now - date) 60000 ltac:(lia)) as Hq.
  pose proof (Z.mod_pos_bound (now - date) 60000 ltac:(lia)) as Hr.
  pose proof (Z.div_mod ((now - date) `div` 60000) 60 ltac:(lia)) as Hq'.
  pose proof (Z.mod_pos_bound ((now - date) `div` 60000) 60 ltac:(lia)) as Hr'.
  repeat case_decide; lia.
Qed.

(** ** The visit-count popup *)

Lemma visit_popup_inv es :
  let p := foldl VisitPopup.handle VisitPopup.fresh es in
  VisitPopup.body p = []
  ∨ ∃ e c, VisitPopup.body p = [(e, c)] ∧ VisitPopup.dailyVisitPopup p = Some e.
Proof.
  induction es as [|ev es IH] using rev_ind; [by left|].
  rewrite foldl_snoc. cbn zeta in *.
  set (p := foldl VisitPopup.handle VisitPopup.fresh es) in *.
  destruct ev as [c| |keep]; cbn [VisitPopup.handle].
  - right. exists (VisitPopup.made p), c. split; [|done].
    unfold VisitPopup.displayVisitPopup. cbn [VisitPopup.body].
    destruct IH as [-> | (e & c' & -> & ->)].
    + by destruct (VisitPopup.dailyVisitPopup p).
    + unfold VisitPopup.remove. cbn. by rewrite bool_decide_eq_true_2.
  - unfold VisitPopup.removal_timer.
    destruct IH as [Hnil | (e & c' & Hb & Hv)].
    + destruct (VisitPopup.dailyVisitPopup p); [|by left].
      case_bool_decide; [|by left]. left. cbn. by rewrite Hnil.
    + rewrite Hv. case_bool_decide; [|right; by exists e, c'].
      left. cbn. rewrite Hb. unfold VisitPopup.remove. cbn.
      by rewrite bool_decide_eq_true_2.
  - destruct IH as [Hnil | (e & c' & Hb & Hv)]; cbn.
    + left. by rewrite Hnil.
    + rewrite Hb. cbn. destruct (keep e); [right; by exists e, c'|by left].
Qed.

(** X18. The page never holds two visit-count popups: whatever answers
    arrive, removal timers fire and elements the page removes, at most one
    popup element is under [document.body], it is the one the
    [dailyVisitPopup] variable holds, and a new answer replaces it by a
    popup that prints the new count. *)
Theorem one_visit_popup (es : list VisitPopup.event) :
  let p := foldl VisitPopup.handle VisitPopup.fresh es in
  (length (VisitPopup.body p) <= 1)%nat
  ∧ (∀ x, x ∈ VisitPopup.body p → VisitPopup.dailyVisitPopup p = Some x.1)
  ∧ ∀ visitCount,
      VisitPopup.body (VisitPopup.handle p (VisitPopup.Display visitCount))
      = [(VisitPopup.made p, visitCount)].
Proof.
  intros p. pose proof (visit_popup_inv es) as Hinv. cbn zeta in Hinv.
  fold p in Hinv. split; [|split].
  - destruct Hinv as [-> | (e & c & -> & _)]; cbn; lia.
  - intros x Hx. destruct Hinv as [Hnil | (e & c & Hb & Hv)].
    + rewrite Hnil in Hx. by apply elem_of_nil in Hx.
    + rewrite Hb in Hx. by apply list_elem_of_singleton in Hx as ->.
  - intros visitCount. cbn [VisitPopup.handle].
    unfold VisitPopup.displayVisitPopup. cbn [VisitPopup.body].
    destruct Hinv as [-> | (e & c' & -> & ->)].
    + by destruct (VisitPopup.dailyVisitPopup p).
    + unfold VisitPopup.remove. cbn. by rewrite bool_decide_eq_true_2.
Qed.
